(** * CEDARScript AST parser: a shallow embedding of [cedarscript_ast_parser.py]

    The development follows the layout of the Python module: the Python
    built-ins the module relies on, the syntax-tree interface of the parsing
    engine, the location / clause / command data model, and the parser class
    [CEDARScriptASTParser] itself.  Theorems come last.

    Conventions.
    - A Python [str] is a [string]; every character is one [ascii].  Scripts
      and node types are therefore ASCII text, on which [bytes(.., 'utf8')]
      and [.decode('utf8')] do not change the characters.
    - [node.text] is a [bytes] object (the engine is fed [bytes(code_text,
      'utf8')] and the module calls [node.text.decode('utf8')]); it is kept
      apart from [str] by the wrapper [bytes].
    - A Python function that may raise returns a [result]; [Raise e] carries
      the exception, whose [str(e)] is [Exception_str e].
    - Python ints that count (ordinals, rows, columns, byte offsets) are
      [nat]; ints read from the script with [int(..)] are [Z]. *)

From Stdlib Require Import String Ascii List ZArith Lia Bool Arith DecimalString.
Import ListNotations.
Open Scope list_scope.
Open Scope string_scope.
Open Scope nat_scope.

(* ------------------------------------------------------------------ *)
(** * Exceptions and fallible computations *)

Inductive Exception : Type :=
| ValueError (msg : string)
| AttributeError (msg : string)
| IndexError (msg : string)
| TypeError (msg : string)
| RecursionError (msg : string).

(** [str(e)] *)
Definition Exception_str (e : Exception) : string :=
  match e with
  | ValueError m | AttributeError m | IndexError m | TypeError m
  | RecursionError m => m
  end.

Inductive result (A : Type) : Type :=
| Ok (a : A)
| Raise (e : Exception).
Arguments Ok {A} a.
Arguments Raise {A} e.

Definition bind {A B : Type} (m : result A) (k : A -> result B) : result B :=
  match m with
  | Ok a => k a
  | Raise e => Raise e
  end.

Notation "x <- m ;; k" := (bind m (fun x => k))
  (at level 61, m at next level, right associativity).

(** Attribute access on a value that may be [None]. *)
Definition getattr_of {A : Type} (o : option A) (attr : string) : result A :=
  match o with
  | Some a => Ok a
  | None =>
      Raise (AttributeError
               ("'NoneType' object has no attribute '" ++ attr ++ "'"))
  end.

(** [l[i]] on a Python list. *)
Definition list_index {A : Type} (l : list A) (i : nat) : result A :=
  match nth_error l i with
  | Some a => Ok a
  | None => Raise (IndexError "list index out of range")
  end.

(* ------------------------------------------------------------------ *)
(** * Python string built-ins *)

Module Py.

Definition space : ascii := " "%char.
Definition newline : ascii := "010"%char.
Definition squote : ascii := "'"%char.
Definition dquote : ascii := "034"%char.
Definition backslash : ascii := "\"%char.

Fixpoint mem (c : ascii) (chars : string) : bool :=
  match chars with
  | EmptyString => false
  | String d rest => Ascii.eqb c d || mem c rest
  end.

(** [s.lstrip(chars)], [s.rstrip(chars)], [s.strip(chars)]: [chars] is a set
    of characters, every leading / trailing member of which is removed. *)
Fixpoint lstrip_by (p : ascii -> bool) (s : string) : string :=
  match s with
  | EmptyString => EmptyString
  | String c rest => if p c then lstrip_by p rest else s
  end.

Fixpoint rstrip_by (p : ascii -> bool) (s : string) : string :=
  match s with
  | EmptyString => EmptyString
  | String c rest =>
      match rstrip_by p rest with
      | EmptyString => if p c then EmptyString else String c EmptyString
      | r => String c r
      end
  end.

Definition strip_by (p : ascii -> bool) (s : string) : string :=
  rstrip_by p (lstrip_by p s).

Definition strip (s chars : string) : string :=
  strip_by (fun c => mem c chars) s.

(** [c.isspace()] on ASCII. *)
Definition isspace (c : ascii) : bool :=
  let n := nat_of_ascii c in
  ((9 <=? n) && (n <=? 13)) || ((28 <=? n) && (n <=? 32)).

(** [s.strip()] *)
Definition strip_ws (s : string) : string := strip_by isspace s.

(** [s.startswith(p)], [s.endswith(p)] *)
Definition startswith (s p : string) : bool := String.prefix p s.

Definition endswith (s p : string) : bool :=
  let ls := String.length s in
  let lp := String.length p in
  (lp <=? ls) && String.eqb (String.substring (ls - lp) lp s) p.

(** [s.removeprefix(p)], [s.removesuffix(p)] *)
Definition removeprefix (s p : string) : string :=
  if startswith s p
  then String.substring (String.length p) (String.length s - String.length p) s
  else s.

Definition removesuffix (s p : string) : string :=
  if negb (String.eqb p "") && endswith s p
  then String.substring 0 (String.length s - String.length p) s
  else s.

(** [s.replace(old, new)]: left to right, occurrences do not overlap.
    [skip] counts the characters of a matched occurrence still to drop. *)
Fixpoint replace_from (skip : nat) (s old new : string) : string :=
  match s with
  | EmptyString =>
      match skip, old with
      | 0, EmptyString => new
      | _, _ => EmptyString
      end
  | String c rest =>
      match skip with
      | S k => replace_from k rest old new
      | 0 =>
          if String.prefix old s
          then
            match old with
            | EmptyString => new ++ String c (replace_from 0 rest old new)
            | String _ old' =>
                new ++ replace_from (String.length old') rest old new
            end
          else String c (replace_from 0 rest old new)
      end
  end.

Definition replace (s old new : string) : string := replace_from 0 s old new.

(** [s.casefold()] on ASCII: the upper-case letters are lowered. *)
Definition casefold_char (c : ascii) : ascii :=
  let n := nat_of_ascii c in
  if (65 <=? n) && (n <=? 90) then ascii_of_nat (n + 32) else c.

Fixpoint casefold (s : string) : string :=
  match s with
  | EmptyString => EmptyString
  | String c rest => String (casefold_char c) (casefold rest)
  end.

(** [s.lower()] agrees with [casefold] on ASCII. *)
Definition lower (s : string) : string := casefold s.

(** [sep.join(parts)] *)
Fixpoint join (sep : string) (parts : list string) : string :=
  match parts with
  | [] => EmptyString
  | [p] => p
  | p :: rest => p ++ sep ++ join sep rest
  end.

(** [s * n] for an int [n]: empty when [n <= 0]. *)
Fixpoint repeat_nat (s : string) (n : nat) : string :=
  match n with
  | 0 => EmptyString
  | S k => s ++ repeat_nat s k
  end.

Definition mul (s : string) (n : Z) : string := repeat_nat s (Z.to_nat n).

(** [s[a:b]] for non-negative [a] and [b]. *)
Definition slice (s : string) (a b : nat) : string :=
  String.substring a (Nat.min b (String.length s) - a) s.

(** [str(n)] / [f"{n}"] for ints. *)
Definition str_of_nat (n : nat) : string :=
  NilZero.string_of_uint (Nat.to_uint n).

Definition str_of_Z (z : Z) : string :=
  NilZero.string_of_int (Z.to_int z).

(** [repr] of text: the quote is the single quote unless the text holds a
    single quote and no double quote; backslash, the quote, tab, newline and
    carriage return are escaped, other non-printable characters are written
    [\xNN]. *)
Definition hex_digit (n : nat) : ascii :=
  if n <? 10 then ascii_of_nat (48 + n) else ascii_of_nat (87 + n).

Definition repr_char (quote c : ascii) : string :=
  let n := nat_of_ascii c in
  if Ascii.eqb c backslash then "\\"
  else if Ascii.eqb c quote then String backslash (String c EmptyString)
  else if n =? 9 then "\t"
  else if n =? 10 then "\n"
  else if n =? 13 then "\r"
  else if (n <? 32) || (127 <=? n)
       then String backslash
              (String "x"%char
                 (String (hex_digit (n / 16))
                    (String (hex_digit (n mod 16)) EmptyString)))
  else String c EmptyString.

Fixpoint repr_body (quote : ascii) (s : string) : string :=
  match s with
  | EmptyString => EmptyString
  | String c rest => repr_char quote c ++ repr_body quote rest
  end.

Definition repr_quote (s : string) : ascii :=
  if mem squote s && negb (mem dquote s) then dquote else squote.

Definition repr (s : string) : string :=
  let q := repr_quote s in
  String q (repr_body q s ++ String q EmptyString).

End Py.

(** ** [bytes] *)

Record bytes : Type := Bytes { raw : string }.

(** [b.decode('utf8')] *)
Definition decode (b : bytes) : string := raw b.

(** [repr(b)], which is also what an f-string writes for a bytes value. *)
Definition bytes_repr (b : bytes) : string := "b" ++ Py.repr (raw b).

(** The argument of [bytes.strip]: the module passes a [str] literal. *)
Inductive strip_arg : Type :=
| ArgStr (s : string)
| ArgBytes (b : bytes).

(** [b.strip(chars)]: [chars] has to be bytes-like. *)
Definition bytes_strip (b : bytes) (chars : strip_arg) : result bytes :=
  match chars with
  | ArgBytes c => Ok (Bytes (Py.strip (raw b) (raw c)))
  | ArgStr _ =>
      Raise (TypeError "a bytes-like object is required, not 'str'")
  end.

(** [int(b)] for a bytes value: optional blanks, an optional sign, decimal
    digits that single underscores may separate, optional blanks. *)
Definition is_digit (c : ascii) : bool :=
  let n := nat_of_ascii c in (48 <=? n) && (n <=? 57).

Definition bytes_isspace (c : ascii) : bool :=
  let n := nat_of_ascii c in
  ((9 <=? n) && (n <=? 13)) || (n =? 32).

(** Digits after the first one; [after_us] tells that the previous character
    was an underscore, which a digit has to follow. *)
Fixpoint int_digits (acc : Z) (after_us : bool) (s : string) : option Z :=
  match s with
  | EmptyString => if after_us then None else Some acc
  | String c rest =>
      if is_digit c
      then int_digits (10 * acc + Z.of_nat (nat_of_ascii c - 48)) false rest
      else if Ascii.eqb c "_"%char && negb after_us
           then int_digits acc true rest
           else None
  end.

Definition int_unsigned (s : string) : option Z :=
  match s with
  | EmptyString => None
  | String c rest =>
      if is_digit c
      then int_digits (Z.of_nat (nat_of_ascii c - 48)) false rest
      else None
  end.

Definition int_literal (s : string) : option Z :=
  match Py.strip_by bytes_isspace s with
  | String "-"%char rest => option_map Z.opp (int_unsigned rest)
  | String "+"%char rest => int_unsigned rest
  | t => int_unsigned t
  end.

Definition int_of_bytes (b : bytes) : result Z :=
  match int_literal (raw b) with
  | Some z => Ok z
  | None =>
      Raise (ValueError
               ("invalid literal for int() with base 10: " ++ bytes_repr b))
  end.

(* ------------------------------------------------------------------ *)
(** * The syntax tree handed over by the parsing engine

    A node exposes its type tag, the [has_error] flag, its start point
    (row, column), its byte range, its text and its children; the children
    that are named in the grammar form [named_children]. *)

Unset Elimination Schemes.
Inductive Node : Type := mkNode {
  Node_type : string;
  is_named : bool;
  has_error : bool;
  start_point : nat * nat;
  start_byte : nat;
  end_byte : nat;
  text : bytes;
  children : list Node
}.
Set Elimination Schemes.

Definition named_children (n : Node) : list Node :=
  filter is_named (children n).

(** [node.child(i)]: [None] when there is no such child. *)
Definition child (n : Node) (i : nat) : option Node :=
  nth_error (children n) i.

Fixpoint node_height (n : Node) : nat :=
  S ((fix over (l : list Node) : nat :=
        match l with
        | [] => 0
        | c :: rest => Nat.max (node_height c) (over rest)
        end) (children n)).

(* ------------------------------------------------------------------ *)
(** * Diagnostics *)

Record ParseError : Type := mkParseError {
  command_ordinal : nat;
  message : string;
  line : nat;
  column : nat;
  suggestion : string
}.

(* ------------------------------------------------------------------ *)
(** * Locations *)

Inductive BodyOrWhole : Type := BODY | WHOLE.

Inductive MarkerType : Type := LINE | VARIABLE | FUNCTION | CLASS.

Inductive RelativePositionType : Type := AT | BEFORE | AFTER | INSIDE.

(** The members of a [StrEnum] are their lower-cased names. *)
Definition BodyOrWhole_value (b : BodyOrWhole) : string :=
  match b with BODY => "body" | WHOLE => "whole" end.

Definition MarkerType_value (t : MarkerType) : string :=
  match t with
  | LINE => "line" | VARIABLE => "variable"
  | FUNCTION => "function" | CLASS => "class"
  end.

Definition RelativePositionType_value (q : RelativePositionType) : string :=
  match q with
  | AT => "at" | BEFORE => "before" | AFTER => "after" | INSIDE => "inside"
  end.

(** Looking a member up by value: [BodyOrWhole(v)], [MarkerType(v)],
    [RelativePositionType(v)]. *)
Definition not_a_valid (v cls : string) : Exception :=
  ValueError (Py.repr v ++ " is not a valid " ++ cls).

Definition BodyOrWhole_of (v : string) : result BodyOrWhole :=
  if String.eqb v "body" then Ok BODY
  else if String.eqb v "whole" then Ok WHOLE
  else Raise (not_a_valid v "BodyOrWhole").

Definition MarkerType_of (v : string) : result MarkerType :=
  if String.eqb v "line" then Ok LINE
  else if String.eqb v "variable" then Ok VARIABLE
  else if String.eqb v "function" then Ok FUNCTION
  else if String.eqb v "class" then Ok CLASS
  else Raise (not_a_valid v "MarkerType").

Definition RelativePositionType_of (v : string) : result RelativePositionType :=
  if String.eqb v "at" then Ok AT
  else if String.eqb v "before" then Ok BEFORE
  else if String.eqb v "after" then Ok AFTER
  else if String.eqb v "inside" then Ok INSIDE
  else Raise (not_a_valid v "RelativePositionType").

Record Marker : Type := mkMarker {
  Marker_type : MarkerType;
  Marker_value : string;
  Marker_offset : option Z
}.

(** [RelativeMarker] extends [Marker] by a qualifier. *)
Record RelativeMarker : Type := mkRelativeMarker {
  qualifier : RelativePositionType;
  as_marker : Marker
}.

(** [Marker.__str__] *)
Definition Marker_str (self : Marker) : string :=
  let result :=
    MarkerType_value (Marker_type self) ++ " '" ++ Marker_value self ++ "'" in
  match Marker_offset self with
  | Some offset => result ++ " at offset " ++ Py.str_of_Z offset
  | None => result
  end.

(** [RelativeMarker.__str__] *)
Definition RelativeMarker_str (self : RelativeMarker) : string :=
  let result := Marker_str (as_marker self) in
  match qualifier self with
  | AT => result
  | q => result ++ " (" ++ RelativePositionType_value q ++ ")"
  end.

(** What [parse_region] can return.  The ends of a [Segment] hold whatever
    [parse_region] returned for them. *)
Inductive Region : Type :=
| RegionBodyOrWhole (b : BodyOrWhole)
| RegionMarker (m : Marker)
| RegionRelativeMarker (m : RelativeMarker)
| RegionSegment (start end_ : Region).

(** ** File or identifier *)

Record WhereClause : Type := mkWhereClause {
  field : string;
  operator : string;
  value : string
}.

Record SingleFileClause : Type := mkSingleFileClause {
  file_path : string
}.

Record IdentifierFromFile : Type := mkIdentifierFromFile {
  identifier_file_path : string;
  where_clause : WhereClause;
  identifier_type : string;
  offset : option Z
}.

Inductive FileOrIdentifierWithin : Type :=
| OfSingleFile (c : SingleFileClause)
| OfIdentifier (i : IdentifierFromFile).

(** [target.file_path]: [IdentifierFromFile] inherits the attribute. *)
Definition target_file_path (t : FileOrIdentifierWithin) : string :=
  match t with
  | OfSingleFile c => file_path c
  | OfIdentifier i => identifier_file_path i
  end.

(* ------------------------------------------------------------------ *)
(** * Editing clauses *)

Record ReplaceClause : Type := mkReplaceClause { replace_region : Region }.

Record DeleteClause : Type := mkDeleteClause { delete_region : Region }.

Record InsertClause : Type := mkInsertClause { insert_position : Region }.

Record MoveClause : Type := mkMoveClause {
  move_region : Region;
  move_insert_position : Region;
  to_other_file : option SingleFileClause;
  relative_indentation : option Z
}.

Inductive EditingAction : Type :=
| Replace (c : ReplaceClause)
| Delete (c : DeleteClause)
| Insert (c : InsertClause)
| Move (c : MoveClause).

(* ------------------------------------------------------------------ *)
(** * Commands *)

(** The four command classes the parser builds.  The base class [Command]
    and the unfinished [SelectCommand], which no function of the module
    builds and whose [files_to_change] is the empty tuple, stay outside. *)
Inductive Command : Type :=
| CreateCommand (type file_path content : string)
| RmFileCommand (type file_path : string)
| MvFileCommand (type file_path target_path : string)
| UpdateCommand (type : string) (target : FileOrIdentifierWithin)
                (action : EditingAction) (content : option string).

(** An element of the tuple [files_to_change] returns.  The property is
    annotated [tuple[str, ...]]; [UpdateCommand] appends the value of
    [to_other_file] as it is, which is a [SingleFileClause]. *)
Inductive tuple_item : Type :=
| ItemStr (s : string)
| ItemSingleFileClause (c : SingleFileClause).

(** [Command.files_to_change], with the overriding of the subclasses. *)
Definition files_to_change (self : Command) : list tuple_item :=
  match self with
  | CreateCommand _ file_path _ => [ItemStr file_path]
  | RmFileCommand _ file_path => [ItemStr file_path]
  | MvFileCommand _ file_path target_path =>
      [ItemStr file_path] ++ [ItemStr target_path]
  | UpdateCommand _ target action _ =>
      let result := [ItemStr (target_file_path target)] in
      match action with
      | Move c =>
          match to_other_file c with
          | Some target_file => result ++ [ItemSingleFileClause target_file]
          | None => result
          end
      | _ => result
      end
  end.

(* ------------------------------------------------------------------ *)
(** * The parser: string and content decoding *)

(** The second argument of [find_first_by_type] is one type or a list. *)
Inductive type_arg : Type :=
| OneType (child_type : string)
| TypeList (child_type : list string).

Definition find_first_by_type (nodes : list Node) (child_type : type_arg)
  : option Node :=
  match child_type with
  | TypeList l =>
      find (fun child => existsb (String.eqb (Node_type child)) l) nodes
  | OneType t =>
      find (fun child => String.eqb (Node_type child) t) nodes
  end.

(** The two quote characters, as the argument of [strip]. *)
Definition quote_chars : string := String Py.dquote (String Py.squote "").

Definition triple_squote : string := "'''".

Definition triple_dquote : string :=
  String Py.dquote (String Py.dquote (String Py.dquote "")).

Definition escaped_squote : string := String Py.backslash (String Py.squote "").

Definition escaped_dquote : string := String Py.backslash (String Py.dquote "").

(** [parse_string]; the argument is [None] where a caller passes the
    outcome of [find_first_by_type] on. *)
Definition parse_string (node : option Node) : result string :=
  node <- getattr_of node "type" ;;
  node <- (if String.eqb (Py.casefold (Node_type node)) "string"
           then list_index (named_children node) 0
           else Ok node) ;;
  let text := decode (text node) in
  let node_type := Py.casefold (Node_type node) in
  if String.eqb node_type "raw_string"
  then Ok (Py.strip text quote_chars)
  else if String.eqb node_type "single_quoted_string"
  then Ok (Py.strip
             (Py.replace (Py.replace text escaped_squote (String Py.squote ""))
                         escaped_dquote (String Py.dquote ""))
             quote_chars)
  else if String.eqb node_type "multi_line_string"
  then Ok (Py.removesuffix
             (Py.removesuffix
                (Py.removeprefix (Py.removeprefix text triple_squote)
                                 triple_dquote)
                triple_squote)
             triple_dquote)
  else Ok text.

Definition parse_multiline_string (node : Node) : result string :=
  Ok (Py.strip (Py.strip (decode (text node)) triple_squote) triple_dquote).

(** The loop of [parse_relative_indent_block]; [lines] is the list built so
    far.  [indent_prefix.text] and [content.text] are bytes values. *)
Fixpoint relative_indent_lines (line_nodes : list Node) (lines : list string)
  : result (list string) :=
  match line_nodes with
  | [] => Ok lines
  | line_node :: rest =>
      if String.eqb (Node_type line_node) "relative_indent_line"
      then
        let indent_prefix :=
          find_first_by_type (children line_node)
                             (OneType "relative_indent_prefix") in
        let content :=
          find_first_by_type (children line_node) (OneType "match_any_char") in
        match indent_prefix, content with
        | Some indent_prefix, Some content =>
            stripped <- bytes_strip (text indent_prefix) (ArgStr "@:") ;;
            indent <- int_of_bytes stripped ;;
            relative_indent_lines rest
              (lines ++ [(Py.mul " " (4 * indent)
                          ++ bytes_repr (text content))%string])%list
        | _, _ => relative_indent_lines rest lines
        end
      else relative_indent_lines rest lines
  end.

Definition parse_relative_indent_block (node : Node) : result string :=
  lines <- relative_indent_lines (children node) [] ;;
  Ok (Py.join (String Py.newline "") lines).

Definition parse_singlefile_clause (node : option Node)
  : result SingleFileClause :=
  match node with
  | None => Raise (ValueError "Expected singlefile_clause node")
  | Some node =>
      if negb (String.eqb (Node_type node) "singlefile_clause")
      then Raise (ValueError "Expected singlefile_clause node")
      else
        match find_first_by_type (children node) (OneType "string") with
        | None => Raise (ValueError "No file_path found in singlefile_clause")
        | Some path_node =>
            file_path <- parse_string (Some path_node) ;;
            Ok (mkSingleFileClause file_path)
        end
  end.

(** The node [find_first_by_type] returns here has one of the three types
    asked for, so the last test of the [elif] chain holds when reached. *)
Definition parse_content_clause (node : option Node) : result string :=
  match node with
  | None => Raise (ValueError "Expected content_clause node")
  | Some node =>
      if negb (String.eqb (Node_type node) "content_clause")
      then Raise (ValueError "Expected content_clause node")
      else
        let child_type :=
          ["string"; "relative_indent_block"; "multiline_string"] in
        match find_first_by_type (children node) (TypeList child_type) with
        | None => Raise (ValueError "No content found in content_clause")
        | Some content_node =>
            if String.eqb (Node_type content_node) "string"
            then parse_string (Some content_node)
            else if String.eqb (Node_type content_node) "relative_indent_block"
            then parse_relative_indent_block content_node
            else parse_multiline_string content_node
        end
  end.

Definition parse_to_value_clause (node : option Node) : result string :=
  match node with
  | None => Raise (ValueError "Expected to_value_clause node")
  | Some node =>
      if negb (String.eqb (Node_type node) "to_value_clause")
      then Raise (ValueError "Expected to_value_clause node")
      else
        match find_first_by_type (children node) (OneType "string") with
        | None => Raise (ValueError "No value found in to_value_clause")
        | Some value_node => parse_string (Some value_node)
        end
  end.

Definition parse_offset_clause (node : option Node) : result (option Z) :=
  match node with
  | None => Ok None
  | Some node =>
      number <- getattr_of (find_first_by_type (children node)
                                               (OneType "number")) "text" ;;
      n <- int_of_bytes (text number) ;;
      Ok (Some n)
  end.

Definition parse_relative_indentation (node : option Node)
  : result (option Z) :=
  match node with
  | None => Ok None
  | Some node =>
      number <- getattr_of (find_first_by_type (children node)
                                               (OneType "number")) "text" ;;
      n <- int_of_bytes (text number) ;;
      Ok (Some n)
  end.

(* ------------------------------------------------------------------ *)
(** * The parser: regions *)

Definition parse_marker (node : Node) : result Marker :=
  node <- (if String.eqb (Py.casefold (Node_type node)) "marker"
           then list_index (named_children node) 0
           else Ok node) ;;
  first <- list_index (children node) 0 ;;
  let marker_type := Node_type first in
  value <- parse_string (find_first_by_type (named_children node)
                                            (OneType "string")) ;;
  offset <- parse_offset_clause (find_first_by_type (named_children node)
                                                    (OneType "offset_clause")) ;;
  type <- MarkerType_of (Py.casefold marker_type) ;;
  Ok (mkMarker type value offset).

(** [RelativePositionType(node.child(0).type.casefold())] *)
Definition qualifier_of_first_child (node : Node)
  : result RelativePositionType :=
  first <- getattr_of (child node 0) "type" ;;
  RelativePositionType_of (Py.casefold (Node_type first)).

(** The first [match] of [parse_region]: the wrappers around the region are
    taken off, and the qualifier of a relative position is kept. *)
Definition parse_region_unwrap (node : Node)
  : result (option RelativePositionType * Node) :=
  let node_type := Py.casefold (Node_type node) in
  if String.eqb node_type "marker_or_segment"
  then node <- list_index (named_children node) 0 ;; Ok (None, node)
  else if String.eqb node_type "region_field"
  then
    node <- list_index (children node) 0 ;;
    if String.eqb (Py.casefold (Node_type node)) "marker_or_segment"
    then node <- list_index (named_children node) 0 ;; Ok (None, node)
    else Ok (None, node)
  else if String.eqb node_type "relpos_bai"
  then
    node <- list_index (named_children node) 0 ;;
    qualifier <- qualifier_of_first_child node ;;
    node <- list_index (named_children node) 0 ;;
    Ok (Some qualifier, node)
  else if String.eqb node_type "relpos_beforeafter"
  then
    qualifier <- qualifier_of_first_child node ;;
    node <- list_index (named_children node) 0 ;;
    Ok (Some qualifier, node)
  else if String.eqb node_type "relpos_at"
  then node <- list_index (named_children node) 0 ;; Ok (None, node)
  else Ok (None, node).

(** The end of [parse_region]: with a qualifier, the result is rebuilt as a
    [RelativeMarker] from its attributes [type], [value] and [offset]. *)
Definition parse_region_qualify (qualifier : option RelativePositionType)
                                (res : Region) : result Region :=
  match qualifier with
  | None => Ok res
  | Some qualifier =>
      match res with
      | RegionMarker m =>
          Ok (RegionRelativeMarker (mkRelativeMarker qualifier m))
      | RegionRelativeMarker m =>
          Ok (RegionRelativeMarker (mkRelativeMarker qualifier (as_marker m)))
      | RegionSegment _ _ =>
          Raise (AttributeError "'Segment' object has no attribute 'type'")
      | RegionBodyOrWhole _ =>
          Raise (AttributeError "'BodyOrWhole' object has no attribute 'type'")
      end
  end.

(** [parse_segment], over the [parse_region] it calls back. *)
Definition parse_segment_with (parse_region : option Node -> result Region)
                              (node : Node) : result Region :=
  start_clause <- getattr_of (find_first_by_type (named_children node)
                                (OneType "relpos_segment_start")) "children" ;;
  relpos_start <- list_index (children start_clause) 1 ;;
  end_clause <- getattr_of (find_first_by_type (named_children node)
                              (OneType "relpos_segment_end")) "children" ;;
  relpos_end <- list_index (children end_clause) 1 ;;
  start <- parse_region (Some relpos_start) ;;
  end_ <- parse_region (Some relpos_end) ;;
  Ok (RegionSegment start end_).

(** [parse_region] and [parse_segment] call each other on ever smaller
    subtrees; [depth] bounds the nesting of these calls. *)
Fixpoint parse_region_rec (depth : nat) (node : option Node) : result Region :=
  match depth with
  | 0 => Raise (RecursionError "maximum recursion depth exceeded")
  | S depth =>
      node <- getattr_of node "type" ;;
      unwrapped <- parse_region_unwrap node ;;
      let '(qualifier, node) := unwrapped in
      let node_type := Py.casefold (Node_type node) in
      res <-
        (if String.eqb node_type "marker" || String.eqb node_type "linemarker"
         then m <- parse_marker node ;; Ok (RegionMarker m)
         else if String.eqb node_type "segment"
         then parse_segment_with (parse_region_rec depth) node
         else if String.eqb node_type (BodyOrWhole_value BODY)
                 || String.eqb node_type (BodyOrWhole_value WHOLE)
         then b <- BodyOrWhole_of (Py.lower node_type) ;;
              Ok (RegionBodyOrWhole b)
         else Raise (ValueError ("[parse_region] Unexpected node type: "
                                   ++ node_type))) ;;
      parse_region_qualify qualifier res
  end.

(** The height of the subtree is depth enough (lemma
    [parse_region_rec_enough]). *)
Definition parse_region (node : option Node) : result Region :=
  parse_region_rec (match node with Some n => node_height n | None => 1 end)
                   node.

Definition parse_segment (node : Node) : result Region :=
  parse_segment_with parse_region node.

(* ------------------------------------------------------------------ *)
(** * The parser: editing clauses *)

Definition region_child_types : type_arg :=
  TypeList ["marker_or_segment"; "region_field"].

Definition parse_delete_clause (node : Node) : result DeleteClause :=
  region <- parse_region (find_first_by_type (named_children node)
                                             region_child_types) ;;
  Ok (mkDeleteClause region).

Definition parse_insert_clause (node : option Node) : result InsertClause :=
  node <- getattr_of node "children" ;;
  let relative_marker :=
    find_first_by_type (children node) (OneType "relpos_bai") in
  relative_marker <- parse_region relative_marker ;;
  Ok (mkInsertClause relative_marker).

Definition parse_move_clause (node : Node) : result MoveClause :=
  source <- parse_region (find_first_by_type (named_children node)
                                             region_child_types) ;;
  destination <- getattr_of
                   (find_first_by_type (named_children node)
                      (OneType "update_move_clause_destination"))
                   "named_children" ;;
  let insert_clause :=
    find_first_by_type (named_children destination)
                       (OneType "insert_clause") in
  insert_clause <- parse_insert_clause insert_clause ;;
  rel_indent <- parse_relative_indentation
                  (find_first_by_type (named_children destination)
                                      (OneType "relative_indentation")) ;;
  Ok {| move_region := source;
        move_insert_position := insert_position insert_clause;
        to_other_file := None;
        relative_indentation := rel_indent |}.

Definition parse_replace_clause (node : Node) : result ReplaceClause :=
  region <- parse_region (find_first_by_type (named_children node)
                                             region_child_types) ;;
  Ok (mkReplaceClause region).

Definition parse_update_action (node : Node) : result EditingAction :=
  let child_types :=
    ["update_delete_region_clause"; "update_delete_mos_clause";
     "update_move_region_clause"; "update_move_mos_clause";
     "insert_clause"; "replace_mos_clause"; "replace_region_clause"] in
  match find_first_by_type (named_children node) (TypeList child_types) with
  | None => Raise (ValueError "No valid action found in update command")
  | Some action_node =>
      let t := Node_type action_node in
      if String.eqb t "update_delete_mos_clause"
         || String.eqb t "update_delete_region_clause"
      then c <- parse_delete_clause action_node ;; Ok (Delete c)
      else if String.eqb t "update_move_mos_clause"
              || String.eqb t "update_move_region_clause"
      then c <- parse_move_clause action_node ;; Ok (Move c)
      else if String.eqb t "insert_clause"
      then c <- parse_insert_clause (Some action_node) ;; Ok (Insert c)
      else if String.eqb t "replace_mos_clause"
              || String.eqb t "replace_region_clause"
      then c <- parse_replace_clause action_node ;; Ok (Replace c)
      else Raise (ValueError ("[parse_update_action] Invalid: " ++ t))
  end.

(* ------------------------------------------------------------------ *)
(** * The parser: commands *)

Definition parse_where_clause (node : Node) : result WhereClause :=
  match find_first_by_type (children node) (OneType "condition") with
  | None => Raise (ValueError "No condition found in where clause")
  | Some condition =>
      field <- parse_string (find_first_by_type (children condition)
                                                (OneType "conditions_left")) ;;
      operator <- parse_string (find_first_by_type (children condition)
                                                   (OneType "operator")) ;;
      value <- parse_string (find_first_by_type (children condition)
                                                (OneType "string")) ;;
      Ok (mkWhereClause field operator value)
  end.

Definition parse_identifier_from_file (node : Node)
  : result IdentifierFromFile :=
  first <- list_index (children node) 0 ;;
  let identifier_type := Node_type first in
  let file_clause :=
    find_first_by_type (named_children node) (OneType "singlefile_clause") in
  let where_clause :=
    find_first_by_type (named_children node) (OneType "where_clause") in
  let offset_clause :=
    find_first_by_type (named_children node) (OneType "offset_clause") in
  match file_clause, where_clause with
  | Some file_clause, Some where_clause =>
      file <- parse_singlefile_clause (Some file_clause) ;;
      let file_path := file_path file in
      where_ <- parse_where_clause where_clause ;;
      offset <- match offset_clause with
                | Some _ => parse_offset_clause offset_clause
                | None => Ok None
                end ;;
      Ok {| identifier_file_path := file_path;
            where_clause := where_;
            identifier_type := identifier_type;
            offset := offset |}
  | _, _ => Raise (ValueError "Invalid identifier_from_file clause")
  end.

Definition parse_update_target (node : Node) : result FileOrIdentifierWithin :=
  let types := ["singlefile_clause"; "identifier_from_file"] in
  match find_first_by_type (named_children node) (TypeList types) with
  | None => Raise (ValueError "No valid target found in update command")
  | Some target_node =>
      let t := Py.casefold (Node_type target_node) in
      if String.eqb t "singlefile_clause"
      then c <- parse_singlefile_clause (Some target_node) ;;
           Ok (OfSingleFile c)
      else if String.eqb t "identifier_from_file"
      then i <- parse_identifier_from_file target_node ;; Ok (OfIdentifier i)
      else Raise (ValueError ("[parse_update_target] Invalid target: " ++ t))
  end.

Definition parse_update_content (node : Node) : result (option string) :=
  let content_clause :=
    find_first_by_type (children node) (OneType "content_clause") in
  match content_clause with
  | Some _ => c <- parse_content_clause content_clause ;; Ok (Some c)
  | None => Ok None
  end.

Definition parse_create_command (node : Node) : result Command :=
  file <- parse_singlefile_clause
            (find_first_by_type (children node)
                                (OneType "singlefile_clause")) ;;
  let file_path := file_path file in
  content <- parse_content_clause
               (find_first_by_type (children node)
                                   (OneType "content_clause")) ;;
  Ok (CreateCommand "create" file_path content).

Definition parse_rm_file_command (node : Node) : result Command :=
  file <- parse_singlefile_clause
            (find_first_by_type (children node)
                                (OneType "singlefile_clause")) ;;
  let file_path := file_path file in
  Ok (RmFileCommand "rm_file" file_path).

Definition parse_mv_file_command (node : Node) : result Command :=
  file <- parse_singlefile_clause
            (find_first_by_type (children node)
                                (OneType "singlefile_clause")) ;;
  let file_path := file_path file in
  target_path <- parse_to_value_clause
                   (find_first_by_type (children node)
                                       (OneType "to_value_clause")) ;;
  Ok (MvFileCommand "mv_file" file_path target_path).

Definition parse_update_command (node : Node) : result Command :=
  target <- parse_update_target node ;;
  action <- parse_update_action node ;;
  content <- parse_update_content node ;;
  Ok (UpdateCommand "update" target action content).

Definition parse_command (node : Node) : result Command :=
  let t := Node_type node in
  if String.eqb t "create_command" then parse_create_command node
  else if String.eqb t "rm_file_command" then parse_rm_file_command node
  else if String.eqb t "mv_file_command" then parse_mv_file_command node
  else if String.eqb t "update_command" then parse_update_command node
  else Raise (ValueError ("Unexpected command type: " ++ t)).

(* ------------------------------------------------------------------ *)
(** * The parser: diagnostics and the facade *)

(** [_generate_suggestion] reads [error_node.parent]; the tree walk hands
    the parent over, [None] for the root. *)
Definition _generate_suggestion (parent : option Node) (code_text : string)
  : string :=
  match parent with
  | None => "Please check the syntax near the error."
  | Some parent =>
      let parent_type := Node_type parent in
      if String.eqb parent_type "content_clause"
      then "Ensure the content block is properly enclosed with matching quotes (''' or "
           ++ String Py.dquote (String Py.dquote ").")
      else if String.eqb parent_type "update_command"
      then "An action clause ('REPLACE', 'INSERT', 'DELETE') is expected in the 'UPDATE' command."
      else if String.eqb parent_type "create_command"
      then "The 'CREATE' command may be missing 'WITH CONTENT' or has a syntax issue."
      else "Please check the syntax near the error (parent node: "
           ++ parent_type ++ ")"
  end.

(** The diagnostic [_collect_parse_errors] builds for an [ERROR] node. *)
Definition error_of_node (parent : option Node) (node : Node)
                         (code_text : string) (command_ordinal : nat)
  : ParseError :=
  let start_point := start_point node in
  let line := fst start_point + 1 in
  let column := snd start_point + 1 in
  let error_text :=
    Py.strip_ws (Py.slice code_text (start_byte node) (end_byte node)) in
  let message :=
    "Syntax error near '" ++ error_text ++ "' at line " ++ Py.str_of_nat line
    ++ ", column " ++ Py.str_of_nat column ++ "." in
  let suggestion := _generate_suggestion parent code_text in
  {| command_ordinal := command_ordinal;
     message := message;
     line := line;
     column := column;
     suggestion := suggestion |}.

Fixpoint _collect_parse_errors (parent : option Node) (node : Node)
                               (code_text : string) (command_ordinal : nat)
  : list ParseError :=
  let errors := [] in
  if has_error node
  then
    let errors :=
      if String.eqb (Node_type node) "ERROR"
      then (errors
            ++ [error_of_node parent node code_text command_ordinal])%list
      else errors in
    (errors ++ flat_map (fun child =>
                           _collect_parse_errors (Some node) child code_text
                                                 command_ordinal)
                        (children node))%list
  else errors.

(** The parser object: its [parser] attribute is the engine, which turns
    the encoded script into the root node of a tree, or raises. *)
Record CEDARScriptASTParser : Type := {
  parser_parse : bytes -> result Node
}.

(** The local variables of [parse_script] that outlive the loop: the
    commands built, the ordinal, and what was printed. *)
Record loop_state : Type := mkLoopState {
  commands : list Command;
  ordinal : nat;
  stdout : list string
}.

(** The [for] loop of [parse_script].  An exception leaves the loop with the
    state reached, which the handler reads the ordinal from. *)
Fixpoint parse_script_loop (nodes : list Node) (st : loop_state)
  : option Exception * loop_state :=
  match nodes with
  | [] => (None, st)
  | child :: rest =>
      let node_type := Py.casefold (Node_type child) in
      let printed :=
        if String.eqb node_type "comment"
        then
          s <- parse_string (Some child) ;;
          Ok (stdout st
              ++ [("(COMMENT) "
                   ++ Py.strip_ws (Py.removeprefix s "--"))%string])%list
        else Ok (stdout st) in
      match printed with
      | Raise e => (Some e, st)
      | Ok out =>
          let st := mkLoopState (commands st) (ordinal st) out in
          if negb (Py.endswith node_type "_command")
          then parse_script_loop rest st
          else
            match parse_command child with
            | Raise e => (Some e, st)
            | Ok c =>
                parse_script_loop rest
                  (mkLoopState (commands st ++ [c])%list (ordinal st + 1)
                               (stdout st))
            end
      end
  end.

(** The body of the [try]: its outcome, and the state it ended in. *)
Definition parse_script_try (self : CEDARScriptASTParser) (code_text : string)
  : result (list Command * list ParseError) * loop_state :=
  let st := mkLoopState [] 1 [] in
  match parser_parse self (Bytes code_text) with
  | Raise e => (Raise e, st)
  | Ok root_node =>
      let errors :=
        _collect_parse_errors None root_node code_text (ordinal st) in
      match errors with
      | _ :: _ => (Ok ([], errors), st)
      | [] =>
          match parse_script_loop (children root_node) st with
          | (Some e, st) => (Raise e, st)
          | (None, st) => (Ok (commands st, []), st)
          end
      end
  end.

(** The handler of [except Exception as e]. *)
Definition parse_script_except (e : Exception) (command_ordinal : nat)
  : result (list Command * list ParseError) :=
  let error_message := Exception_str e in
  let error := {| command_ordinal := command_ordinal;
                  message := error_message;
                  line := 0;
                  column := 0;
                  suggestion := "Revise your CEDARScript syntax." |} in
  Ok ([], [error]).

Definition parse_script (self : CEDARScriptASTParser) (code_text : string)
  : result (list Command * list ParseError) :=
  match parse_script_try self code_text with
  | (Ok r, _) => Ok r
  | (Raise e, st) => parse_script_except e (ordinal st)
  end.

(* ------------------------------------------------------------------ *)
(** * Vocabulary of the properties *)

(** Structural induction on trees: a property of a node may rely on it for
    all the children. *)
Section Node_induction.

Variable P : Node -> Prop.
Hypothesis step : forall n, Forall P (children n) -> P n.

Fixpoint Node_ind (n : Node) : P n :=
  match n with
  | mkNode t nm he sp sb eb tx cs =>
      step (mkNode t nm he sp sb eb tx cs)
           ((fix over (l : list Node) : Forall P l :=
               match l with
               | [] => Forall_nil P
               | c :: rest => Forall_cons c (Node_ind c) (over rest)
               end) cs)
  end.

End Node_induction.

(** A node of the engine's error-marker type. *)
Definition is_error_node (n : Node) : bool := String.eqb (Node_type n) "ERROR".

(** The error nodes of a tree in document order, each with its parent. *)
Fixpoint error_nodes (parent : option Node) (n : Node)
  : list (option Node * Node) :=
  ((if is_error_node n then [(parent, n)] else [])
   ++ flat_map (error_nodes (Some n)) (children n))%list.

Definition count_error_nodes (n : Node) : nat :=
  List.length (error_nodes None n).

(** The tree holds an error node. *)
Fixpoint contains_error (n : Node) : bool :=
  is_error_node n || existsb contains_error (children n).

(** The engine sets [has_error] on every node that is an error node or has
    one below it. *)
Fixpoint flags_cover_errors (n : Node) : bool :=
  implb (contains_error n) (has_error n)
  && forallb flags_cover_errors (children n).

(** The error nodes the collector reaches: those whose [has_error] flag is
    set and that lie under flagged nodes only. *)
Fixpoint reached_error_nodes (parent : option Node) (n : Node)
  : list (option Node * Node) :=
  if has_error n
  then ((if is_error_node n then [(parent, n)] else [])
        ++ flat_map (reached_error_nodes (Some n)) (children n))%list
  else [].

(** A top-level node that [parse_script] turns into a command. *)
Definition is_command_node (n : Node) : bool :=
  Py.endswith (Py.casefold (Node_type n)) "_command".

Definition is_comment_node (n : Node) : bool :=
  String.eqb (Py.casefold (Node_type n)) "comment".

Definition count_command_nodes (nodes : list Node) : nat :=
  List.length (filter is_command_node nodes).

(** A run of nodes whose commands can all be built. *)
Definition all_commands_build (nodes : list Node) : Prop :=
  forall n, In n nodes -> is_command_node n = true ->
            exists c, parse_command n = Ok c.

(** The state [parse_script] enters its loop with. *)
Definition initial_state : loop_state := mkLoopState [] 1 [].

(** A quote character. *)
Definition is_quote (c : ascii) : bool := Py.mem c quote_chars.

Definition begins_with_quote (s : string) : bool :=
  match s with
  | EmptyString => false
  | String c _ => is_quote c
  end.

Fixpoint ends_with_quote (s : string) : bool :=
  match s with
  | EmptyString => false
  | String c EmptyString => is_quote c
  | String _ rest => ends_with_quote rest
  end.

(** Following the spec's words: strip exactly one layer of matching quote
    characters.  To be compared with what [parse_string] does. *)
Definition spec_strip_one_layer (s : string) : string :=
  match s with
  | EmptyString => s
  | String q rest =>
      if is_quote q
         && (2 <=? String.length s)
         && Py.endswith rest (String q "")
      then String.substring 0 (String.length rest - 1) rest
      else s
  end.

(** A child of a relative-indent block that the decoder does not skip: a
    [relative_indent_line] with an indent prefix and with content. *)
Definition has_indent_prefix (line_node : Node) : bool :=
  match find_first_by_type (children line_node)
                           (OneType "relative_indent_prefix") with
  | Some _ => true
  | None => false
  end.

Definition has_content (line_node : Node) : bool :=
  match find_first_by_type (children line_node) (OneType "match_any_char") with
  | Some _ => true
  | None => false
  end.

Definition is_decoded_line (line_node : Node) : bool :=
  String.eqb (Node_type line_node) "relative_indent_line"
  && has_indent_prefix line_node && has_content line_node.

(** ** Trees used as concrete inputs *)

(** An anonymous token, a named leaf and a named inner node. *)
Definition token (type : string) : Node :=
  mkNode type false false (0, 0) 0 0 (Bytes type) [].

Definition leaf (type txt : string) : Node :=
  mkNode type true false (0, 0) 0 0 (Bytes txt) [].

Definition inner (type : string) (children : list Node) : Node :=
  mkNode type true false (0, 0) 0 0 (Bytes "") children.

Definition string_node (kind txt : string) : Node :=
  inner "string" [leaf kind txt].

Definition line_marker_node (txt : string) : Node :=
  inner "marker" [inner "linemarker"
                        [token "LINE"; string_node "single_quoted_string" txt]].

Definition file_node (txt : string) : Node :=
  inner "singlefile_clause"
        [token "FILE"; string_node "single_quoted_string" txt].

(** [MOVE LINE '5' INSERT AFTER LINE '10' RELATIVE INDENTATION 1] *)
Definition move_node : Node :=
  inner "update_move_mos_clause"
    [token "MOVE";
     inner "marker_or_segment" [line_marker_node "'5'"];
     inner "update_move_clause_destination"
       [inner "insert_clause"
          [token "INSERT";
           inner "relpos_bai"
             [inner "relpos_beforeafter"
                [token "AFTER"; line_marker_node "'10'"]]];
        inner "relative_indentation"
          [token "RELATIVE INDENTATION"; leaf "number" "1"]]].

Definition expected_move_clause : MoveClause :=
  {| move_region := RegionMarker (mkMarker LINE "5" None);
     move_insert_position :=
       RegionRelativeMarker (mkRelativeMarker AFTER (mkMarker LINE "10" None));
     to_other_file := None;
     relative_indentation := Some 1%Z |}.

(** [CREATE FILE 'a.py' WITH CONTENT 'x'] and [RM FILE 'a.py'] *)
Definition create_node : Node :=
  inner "create_command"
    [token "CREATE"; file_node "'a.py'";
     inner "content_clause"
       [token "WITH"; token "CONTENT";
        string_node "single_quoted_string" "'x'"]].

Definition rm_file_node : Node :=
  inner "rm_file_command" [token "RM"; file_node "'a.py'"].

Definition comment_node : Node := leaf "comment" "-- a comment".

(** A node whose type ends with [_command] and that [parse_command] does
    not know. *)
Definition select_node : Node := inner "select_command" [token "SELECT"].

(** A script of one comment and two commands. *)
Definition script_root : Node :=
  inner "source_file" [comment_node; create_node; rm_file_node].

(** A script whose second command cannot be built. *)
Definition failing_root : Node :=
  inner "source_file" [comment_node; create_node; select_node; rm_file_node].

(** A script of one command followed by text the grammar rejects, and its
    tree: the error node spans the rejected text. *)
Definition erroneous_script : string :=
  "CREATE FILE 'a.py' WITH CONTENT 'x'; UPDATE ???".

Definition error_node : Node :=
  mkNode "ERROR" true true (0, 37) 37 47 (Bytes "UPDATE ???") [].

Definition erroneous_root : Node :=
  mkNode "source_file" true true (0, 0) 0 47 (Bytes erroneous_script)
         [create_node; error_node].

(** The same script with a tree in which the error node holds a second
    error node, whose [has_error] flag is not set. *)
Definition unflagged_error_node : Node :=
  mkNode "ERROR" true false (0, 44) 44 47 (Bytes "???") [].

Definition nested_error_node : Node :=
  mkNode "ERROR" true true (0, 37) 37 47 (Bytes "UPDATE ???")
         [token "UPDATE"; unflagged_error_node].

Definition nested_errors_root : Node :=
  mkNode "source_file" true true (0, 0) 0 47 (Bytes erroneous_script)
         [create_node; nested_error_node].

Definition parser_returning (root : Node) : CEDARScriptASTParser :=
  {| parser_parse := fun _ => Ok root |}.

(** A quoted token whose content is itself quoted: the text is the five
    characters double quote, quote, [a], quote, double quote. *)
Definition nested_quotes_token : Node :=
  leaf "raw_string"
       (String Py.dquote (String Py.squote
          (String "a"%char (String Py.squote (String Py.dquote ""))))).

(** The token ['it\'s ok'] in the escaped-single-quote style. *)
Definition escaped_token : Node := leaf "single_quoted_string" "'it\'s ok'".

(** Lines of relative-indent blocks: [@0:def foo():], [@1:pass], and a line
    that has an indent prefix but no content. *)
Definition indent_line (prefix content : string) : Node :=
  inner "relative_indent_line"
        [leaf "relative_indent_prefix" prefix; leaf "match_any_char" content].

Definition prefix_only_line : Node :=
  inner "relative_indent_line" [leaf "relative_indent_prefix" "@1:"].

Definition def_foo_block : Node :=
  inner "relative_indent_block"
        [indent_line "@0:" "def foo():"; indent_line "@1:" "pass"].

Definition skipped_lines_block : Node :=
  inner "relative_indent_block"
        [prefix_only_line; token "newline"; inner "relative_indent_line" []].

(** A cross-file move: the action of the update carries [to_other_file]. *)
Definition cross_file_move : Command :=
  UpdateCommand "update"
    (OfSingleFile (mkSingleFileClause "a.py"))
    (Move {| move_region := RegionBodyOrWhole BODY;
             move_insert_position :=
               RegionRelativeMarker
                 (mkRelativeMarker AFTER (mkMarker LINE "10" None));
             to_other_file := Some (mkSingleFileClause "b.py");
             relative_indentation := None |})
    None.

(** The outcome of a call is not the exhaustion of the recursion depth. *)
Definition within_depth {A : Type} (r : result A) : Prop :=
  match r with
  | Raise (RecursionError _) => False
  | _ => True
  end.

(** The unescaping [parse_string] does for a [single_quoted_string]. *)
Definition unescape_quotes (text : string) : string :=
  Py.replace (Py.replace text escaped_squote (String Py.squote ""))
             escaped_dquote (String Py.dquote "").

(* ------------------------------------------------------------------ *)
(** * The rest of the module *)

(** [ParseError.__str__]: a line or a column of 0 is left out of the
    location, an empty suggestion out of the suggestion element. *)
Definition ParseError_str (self : ParseError) : string :=
  "<error-details><error-location>COMMAND #"
  ++ Py.str_of_nat (command_ordinal self)
  ++ (if line self =? 0 then ""
      else "; LINE #" ++ Py.str_of_nat (line self))
  ++ (if column self =? 0 then ""
      else "; COLUMN #" ++ Py.str_of_nat (column self))
  ++ "</error-location>"
  ++ "<type>PARSING (no commands were applied at all)</type><description>"
  ++ message self ++ "</description>"
  ++ "<suggestion>"
  ++ (if String.eqb (suggestion self) "" then "" else suggestion self ++ " ")
  ++ "(NEVER apologize; just take a deep breath, re-read grammar rules (enclosed by <grammar.js> tags) "
  ++ "and fix you CEDARScript syntax)</suggestion></error-details>".

(** [IdentifierFromFile.__str__]: the text between the parentheses is part
    of the format string, not a replacement field. *)
Definition IdentifierFromFile_str (self : IdentifierFromFile) : string :=
  let result := Py.lower (identifier_type self) ++ " (self.where_clause)" in
  let result :=
    match offset self with
    | Some n => result ++ " at offset " ++ Py.str_of_Z n
    | None => result
    end in
  result ++ " from file " ++ identifier_file_path self.

(** [find_first_by_field_name]; [child_by_field_name] is the lookup of the
    engine, [None] when the node has no child under that field name. *)
Definition find_first_by_field_name
           (child_by_field_name : Node -> string -> option Node)
           (node : Node) (field_names : type_arg) : option Node :=
  match field_names with
  | OneType field_name => child_by_field_name node field_name
  | TypeList field_names =>
      (fix over (names : list string) : option Node :=
         match names with
         | [] => None
         | field_name :: rest =>
             match child_by_field_name node field_name with
             | Some result => Some result
             | None => over rest
             end
         end) field_names
  end.

(** [_get_expected_tokens] *)
Definition _get_expected_tokens (error_node : Node) : list string := [].

(** ** Vocabulary of the further properties *)

(** The node has the type, or one of the types, asked for. *)
Definition has_type (child_type : type_arg) (n : Node) : Prop :=
  match child_type with
  | OneType t => Node_type n = t
  | TypeList l => In (Node_type n) l
  end.

(** The attribute [type] of a command. *)
Definition Command_type (c : Command) : string :=
  match c with
  | CreateCommand t _ _ | RmFileCommand t _ | MvFileCommand t _ _
  | UpdateCommand t _ _ _ => t
  end.

(** The second [match] of [parse_region], on the unwrapped node. *)
Definition parse_region_dispatch (node : Node) : result Region :=
  let node_type := Py.casefold (Node_type node) in
  if String.eqb node_type "marker" || String.eqb node_type "linemarker"
  then m <- parse_marker node ;; Ok (RegionMarker m)
  else if String.eqb node_type "segment"
  then parse_segment node
  else if String.eqb node_type (BodyOrWhole_value BODY)
          || String.eqb node_type (BodyOrWhole_value WHOLE)
  then b <- BodyOrWhole_of (Py.lower node_type) ;; Ok (RegionBodyOrWhole b)
  else Raise (ValueError ("[parse_region] Unexpected node type: "
                            ++ node_type)).

(** A text begins, or ends, with a character of a class. *)
Definition begins_by (p : ascii -> bool) (s : string) : bool :=
  match s with
  | EmptyString => false
  | String c _ => p c
  end.

Fixpoint ends_by (p : ascii -> bool) (s : string) : bool :=
  match s with
  | EmptyString => false
  | String c EmptyString => p c
  | String _ rest => ends_by p rest
  end.

Fixpoint all_by (p : ascii -> bool) (s : string) : bool :=
  match s with
  | EmptyString => true
  | String c rest => p c && all_by p rest
  end.

Definition is_squote (c : ascii) : bool := Py.mem c triple_squote.

Definition is_dquote (c : ascii) : bool := Py.mem c triple_dquote.

(** Two runs of the loop of [parse_script] agree on what [parse_script]
    reads from them: the exception, the commands and the ordinal. *)
Definition same_outcome (a b : option Exception * loop_state) : Prop :=
  fst a = fst b
  /\ commands (snd a) = commands (snd b)
  /\ ordinal (snd a) = ordinal (snd b).

(** The two shapes of the diagnostics [parse_script] returns. *)
Definition is_synthetic (d : ParseError) : Prop :=
  line d = 0 /\ column d = 0
  /\ suggestion d = "Revise your CEDARScript syntax.".

Definition is_located (d : ParseError) : Prop :=
  1 <= line d /\ 1 <= column d /\ command_ordinal d = 1
  /\ suggestion d <> "".

(** The location element of a rendered diagnostic. *)
Definition rendered_location (d : ParseError) : string :=
  if line d =? 0 then ""
  else "; LINE #" ++ Py.str_of_nat (line d)
       ++ "; COLUMN #" ++ Py.str_of_nat (column d).

(** More concrete inputs: a segment between two lines, a relative position
    over it and over [BODY], a file command without a file, an identifier
    without a where clause, an update with content, and scripts of
    comments only and of commands only. *)
Definition segment_node : Node :=
  inner "segment"
    [token "SEGMENT";
     inner "relpos_segment_start"
       [token "STARTING"; inner "relpos_at" [token "AT"; line_marker_node "'1'"]];
     inner "relpos_segment_end"
       [token "ENDING";
        inner "relpos_beforeafter" [token "BEFORE"; line_marker_node "'9'"]]].

Definition after_segment_node : Node :=
  inner "relpos_beforeafter" [token "AFTER"; segment_node].

Definition after_body_node : Node :=
  inner "relpos_beforeafter" [token "AFTER"; leaf "BODY" "BODY"].

Definition rm_without_file_node : Node :=
  inner "rm_file_command" [token "RM"].

Definition identifier_without_where_node : Node :=
  inner "identifier_from_file"
    [token "FUNCTION"; token "FROM"; file_node "'a.py'"].

Definition update_with_content_node : Node :=
  inner "update_command"
    [token "UPDATE"; file_node "'a.py'";
     inner "update_delete_mos_clause"
       [token "DELETE"; inner "marker_or_segment" [line_marker_node "'3'"]];
     inner "content_clause"
       [token "WITH"; token "CONTENT";
        string_node "single_quoted_string" "'x'"]].

Definition comments_only_root : Node :=
  inner "source_file" [comment_node; token "newline"; comment_node].

Definition commands_only_root : Node :=
  inner "source_file" [create_node; rm_file_node].

Definition multi_line_token (txt : string) : Node :=
  leaf "multi_line_string" txt.

(* ------------------------------------------------------------------ *)
(** * Well-formed command nodes

    The shape of the nodes the builder turns into commands, told by the
    types, the order and the texts of the nodes alone. *)























(** A script of a comment and of one command of each kind, a script of an
    unsupported command, and a creation whose content is a relative-indent
    block. *)
Definition mv_file_node : Node :=
  inner "mv_file_command"
    [token "MV"; file_node "'a.py'";
     inner "to_value_clause"
       [token "TO"; string_node "single_quoted_string" "'b.py'"]].

Definition update_move_node : Node :=
  inner "update_command" [token "UPDATE"; file_node "'a.py'"; move_node].

Definition update_segment_node : Node :=
  inner "update_command"
    [token "UPDATE"; file_node "'a.py'";
     inner "replace_mos_clause"
       [token "REPLACE"; inner "marker_or_segment" [segment_node]];
     inner "content_clause"
       [token "WITH"; token "CONTENT";
        string_node "single_quoted_string" "'x'"]].

Definition four_commands_root : Node :=
  inner "source_file"
    [comment_node; create_node; mv_file_node; update_move_node;
     update_segment_node; rm_file_node].




(* ------------------------------------------------------------------ *)
(** * Rendering of markers *)

Lemma append_empty_r (s : string) : s ++ "" = s.
Proof. induction s as [|c s IH]; simpl; [reflexivity | now rewrite IH]. Qed.

Lemma append_assoc (a b c : string) : (a ++ b) ++ c = a ++ (b ++ c).
Proof. induction a as [|x a IH]; simpl; [reflexivity | now rewrite IH]. Qed.

(** C8. A [Marker] renders as its kind, a blank and its value between single
    quotes, followed by [ at offset N] exactly when it has an offset; a
    [RelativeMarker] renders as its marker, followed by the qualifier between
    parentheses exactly when the qualifier is not [AT].  The marker
    FUNCTION foo with offset 2 renders as [function 'foo' at offset 2], with
    qualifier BEFORE as [function 'foo' at offset 2 (before)], and with
    qualifier AT without a qualifier clause. *)
Theorem marker_rendering :
  (forall m : Marker,
      Marker_str m =
        MarkerType_value (Marker_type m) ++ " '" ++ Marker_value m ++ "'"
        ++ match Marker_offset m with
           | Some n => " at offset " ++ Py.str_of_Z n
           | None => ""
           end)
  /\ (forall (q : RelativePositionType) (m : Marker),
         RelativeMarker_str (mkRelativeMarker q m) =
           Marker_str m
           ++ match q with
              | AT => ""
              | _ => " (" ++ RelativePositionType_value q ++ ")"
              end)
  /\ Marker_str (mkMarker FUNCTION "foo" (Some 2%Z))
     = "function 'foo' at offset 2"
  /\ RelativeMarker_str
       (mkRelativeMarker BEFORE (mkMarker FUNCTION "foo" (Some 2%Z)))
     = "function 'foo' at offset 2 (before)"
  /\ RelativeMarker_str
       (mkRelativeMarker AT (mkMarker FUNCTION "foo" (Some 2%Z)))
     = "function 'foo' at offset 2".
Proof.
  split; [| split; [| repeat split; reflexivity ]].
  - intros [t v [n|]]; unfold Marker_str;
      cbn [Marker_type Marker_value Marker_offset].
    + now rewrite !append_assoc.
    + now rewrite append_empty_r.
  - intros q m; unfold RelativeMarker_str; cbn [qualifier as_marker].
    destruct q; try reflexivity.
    now rewrite append_empty_r.
Qed.

(* ------------------------------------------------------------------ *)
(** * Files a command changes *)

Lemma files_to_change_file_commands (t p c q : string) :
  files_to_change (CreateCommand t p c) = [ItemStr p]
  /\ files_to_change (RmFileCommand t p) = [ItemStr p]
  /\ files_to_change (MvFileCommand t p q) = [ItemStr p; ItemStr q].
Proof. repeat split. Qed.

Lemma files_to_change_update_same_file
      (t : string) (target : FileOrIdentifierWithin) (action : EditingAction)
      (content : option string) :
  (forall c, action = Move c -> to_other_file c = None) ->
  files_to_change (UpdateCommand t target action content)
  = [ItemStr (target_file_path target)].
Proof.
  intros H; destruct action as [c|c|c|c]; simpl; try reflexivity.
  now rewrite (H c eq_refl).
Qed.

Lemma files_to_change_update_cross_file
      (t : string) (target : FileOrIdentifierWithin) (c : MoveClause)
      (target_file : SingleFileClause) (content : option string) :
  to_other_file c = Some target_file ->
  files_to_change (UpdateCommand t target (Move c) content)
  = [ItemStr (target_file_path target); ItemSingleFileClause target_file].
Proof. intros H; simpl; now rewrite H. Qed.

(** C6. On the update of [a.py] whose action moves a region to the other
    file [b.py], [files_to_change] is a pair whose second element is the
    [SingleFileClause] held by [to_other_file], not the path [b.py] of that
    clause. *)
Theorem files_to_change_cross_file_move :
  files_to_change cross_file_move
  = [ItemStr "a.py"; ItemSingleFileClause (mkSingleFileClause "b.py")]
  /\ files_to_change cross_file_move <> [ItemStr "a.py"; ItemStr "b.py"].
Proof. split; [reflexivity | discriminate]. Qed.

(* ------------------------------------------------------------------ *)
(** * The diagnostic collector *)

Lemma flat_map_pointwise {A B C : Type} (f : A -> list C) (g : A -> list B)
      (h : B -> C) (l : list A) :
  Forall (fun a => f a = map h (g a)) l ->
  flat_map f l = map h (flat_map g l).
Proof.
  induction 1 as [|a l Ha _ IH]; simpl; [reflexivity|].
  now rewrite map_app, Ha, IH.
Qed.

Lemma flat_map_all_nil {A B : Type} (f : A -> list B) (l : list A) :
  Forall (fun a => f a = []) l -> flat_map f l = [].
Proof.
  induction 1 as [|a l Ha _ IH]; simpl; [reflexivity|].
  now rewrite Ha, IH.
Qed.

Lemma nothing_below {A B : Type} (f : A -> Node -> list B) (cs : list Node) :
  Forall (fun c => forall p, contains_error c = false -> f p c = []) cs ->
  existsb contains_error cs = false ->
  forall p, flat_map (f p) cs = [].
Proof.
  induction 1 as [|c cs Hc _ IH]; simpl; [reflexivity|].
  intros H p. apply orb_false_iff in H as [H1 H2].
  now rewrite (Hc p H1), (IH H2 p).
Qed.

(** Without an error node in the tree there is nothing to list. *)
Lemma error_nodes_none (n : Node) :
  forall parent, contains_error n = false -> error_nodes parent n = [].
Proof.
  induction n as [n IH] using Node_ind; intros parent H.
  destruct n as [t nm he sp sb eb tx cs]; simpl in *.
  apply orb_false_iff in H as [Herr Hcs]. rewrite Herr; simpl.
  now apply (nothing_below error_nodes cs IH Hcs).
Qed.

Lemma error_nodes_below {A : Type} (f : A -> Node -> list (option Node * Node))
      (cs : list Node) :
  Forall (fun c => forall p, contains_error c = true -> f p c <> []) cs ->
  existsb contains_error cs = true ->
  forall p, flat_map (f p) cs <> [].
Proof.
  induction 1 as [|c cs Hc _ IH]; simpl; [discriminate|].
  intros H p Happ. apply app_eq_nil in Happ as [H1 H2].
  apply orb_true_iff in H as [H|H].
  - exact (Hc p H H1).
  - exact (IH H p H2).
Qed.

Lemma error_nodes_some (n : Node) :
  forall parent, contains_error n = true -> error_nodes parent n <> [].
Proof.
  induction n as [n IH] using Node_ind; intros parent H.
  destruct n as [t nm he sp sb eb tx cs]; simpl in *.
  destruct (is_error_node _); simpl in *; [discriminate|].
  now apply (error_nodes_below error_nodes cs IH H).
Qed.

(** Every diagnostic of the collector carries the ordinal it was called
    with, and a line and a column counted from 1. *)
Lemma collected_error_fields (code_text : string) (command_ordinal0 : nat)
      (n : Node) :
  forall parent e,
    In e (_collect_parse_errors parent n code_text command_ordinal0) ->
    command_ordinal e = command_ordinal0 /\ 1 <= line e /\ 1 <= column e.
Proof.
  induction n as [n IH] using Node_ind; intros parent e He.
  destruct n as [t nm he sp sb eb tx cs]; simpl in *.
  destruct he; [|contradiction].
  apply in_app_or in He as [He|He].
  - destruct (String.eqb t "ERROR"); simpl in He; [|contradiction].
    destruct He as [<-|[]]; simpl. repeat split; lia.
  - apply in_flat_map in He as (c & Hc & He).
    rewrite Forall_forall in IH. exact (IH c Hc _ _ He).
Qed.

(** Without an error node the collector finds nothing, whatever the flags. *)
Lemma collected_errors_none (code_text : string) (command_ordinal0 : nat)
      (n : Node) :
  forall parent,
    contains_error n = false ->
    _collect_parse_errors parent n code_text command_ordinal0 = [].
Proof.
  induction n as [n IH] using Node_ind; intros parent Hce.
  destruct n as [t nm he sp sb eb tx cs]; simpl in *.
  apply orb_false_iff in Hce as [Herr Hcs].
  unfold is_error_node in Herr; simpl in Herr. rewrite Herr.
  destruct he; [|reflexivity]. simpl.
  now apply (nothing_below
               (fun p c => _collect_parse_errors p c code_text command_ordinal0)
               cs IH Hcs).
Qed.

(** When the flags cover the error nodes, the collector reports exactly the
    error nodes, in document order. *)
Lemma collected_errors_are_error_nodes (code_text : string)
      (command_ordinal0 : nat) (n : Node) :
  forall parent,
    flags_cover_errors n = true ->
    _collect_parse_errors parent n code_text command_ordinal0
    = map (fun pn => error_of_node (fst pn) (snd pn) code_text command_ordinal0)
          (error_nodes parent n).
Proof.
  induction n as [n IH] using Node_ind; intros parent Hflags.
  destruct (contains_error n) eqn:Hce.
  - destruct n as [t nm he sp sb eb tx cs].
    cbn [flags_cover_errors children has_error] in Hflags.
    rewrite Hce in Hflags. apply andb_true_iff in Hflags as [Hhe Hcs].
    cbn [implb] in Hhe. subst he.
    cbn [_collect_parse_errors error_nodes has_error children].
    unfold is_error_node. cbn [Node_type app].
    rewrite map_app. f_equal.
    + destruct (String.eqb t "ERROR"); reflexivity.
    + apply flat_map_pointwise. cbn [children] in IH.
      rewrite forallb_forall in Hcs. rewrite Forall_forall in IH |- *.
      intros c Hc. exact (IH c Hc _ (Hcs c Hc)).
  - now rewrite (error_nodes_none n parent Hce),
      (collected_errors_none code_text command_ordinal0 n parent Hce).
Qed.

(* ------------------------------------------------------------------ *)
(** * The loop over the top-level nodes *)

Lemma parse_string_comment (n : Node) :
  is_comment_node n = true -> parse_string (Some n) = Ok (decode (text n)).
Proof.
  unfold is_comment_node, parse_string; intros H.
  apply String.eqb_eq in H. cbn [getattr_of bind]. rewrite H.
  change (String.eqb "comment" "string") with false. cbn [bind].
  rewrite H. reflexivity.
Qed.

Lemma command_is_no_comment (n : Node) :
  is_command_node n = true -> is_comment_node n = false.
Proof.
  unfold is_command_node, is_comment_node; intros H.
  destruct (String.eqb_spec (Py.casefold (Node_type n)) "comment") as [E|];
    [|reflexivity].
  rewrite E in H. discriminate H.
Qed.

(** A node that is no command leaves the commands and the ordinal as they
    are; a comment is printed. *)
Lemma loop_skips (child : Node) (rest : list Node) (st : loop_state) :
  is_command_node child = false ->
  exists out,
    parse_script_loop (child :: rest) st
    = parse_script_loop rest (mkLoopState (commands st) (ordinal st) out).
Proof.
  intros H. cbn [parse_script_loop].
  fold (is_comment_node child). fold (is_command_node child). rewrite H.
  destruct (is_comment_node child) eqn:C.
  - rewrite (parse_string_comment child C). cbn [bind negb].
    eexists; reflexivity.
  - cbn [negb]. eexists; reflexivity.
Qed.

Lemma loop_appends (child : Node) (rest : list Node) (st : loop_state)
      (c : Command) :
  is_command_node child = true ->
  parse_command child = Ok c ->
  parse_script_loop (child :: rest) st
  = parse_script_loop rest
      (mkLoopState (commands st ++ [c]) (ordinal st + 1) (stdout st)).
Proof.
  intros H Hc. cbn [parse_script_loop].
  fold (is_comment_node child). fold (is_command_node child).
  rewrite H, (command_is_no_comment child H), Hc. reflexivity.
Qed.

Lemma loop_raises (child : Node) (rest : list Node) (st : loop_state)
      (e : Exception) :
  is_command_node child = true ->
  parse_command child = Raise e ->
  parse_script_loop (child :: rest) st = (Some e, st).
Proof.
  intros H Hc. cbn [parse_script_loop].
  fold (is_comment_node child). fold (is_command_node child).
  rewrite H, (command_is_no_comment child H), Hc. now destruct st.
Qed.

Lemma loop_builds_all (nodes : list Node) :
  all_commands_build nodes ->
  forall st, exists cmds out,
    parse_script_loop nodes st
    = (None, mkLoopState (commands st ++ cmds)
                         (ordinal st + count_command_nodes nodes) out)
    /\ Forall2 (fun n c => parse_command n = Ok c)
               (filter is_command_node nodes) cmds.
Proof.
  unfold count_command_nodes.
  induction nodes as [|child rest IH]; intros Hall st.
  - exists [], (stdout st). cbn. rewrite app_nil_r, Nat.add_0_r.
    destruct st; split; [reflexivity | constructor].
  - assert (Hrest : all_commands_build rest)
      by (intros n Hn; apply Hall; now right).
    cbn [filter]. destruct (is_command_node child) eqn:Hcmd.
    + destruct (Hall child (or_introl eq_refl) Hcmd) as [c Hc].
      rewrite (loop_appends child rest st c Hcmd Hc).
      destruct (IH Hrest (mkLoopState (commands st ++ [c]) (ordinal st + 1)
                                      (stdout st)))
        as (cmds & out & Hloop & Hall2).
      exists (c :: cmds), out. split; [|now constructor].
      rewrite Hloop. cbn [commands ordinal List.length].
      rewrite <- app_assoc. do 2 f_equal. lia.
    + destruct (loop_skips child rest st Hcmd) as [out0 Hskip].
      rewrite Hskip.
      destruct (IH Hrest (mkLoopState (commands st) (ordinal st) out0))
        as (cmds & out & Hloop & Hall2).
      exists cmds, out. split; [|assumption].
      rewrite Hloop. reflexivity.
Qed.

Lemma loop_stops_at (pre : list Node) (c : Node) (post : list Node)
      (e : Exception) :
  all_commands_build pre ->
  is_command_node c = true ->
  parse_command c = Raise e ->
  forall st, exists cmds out,
    parse_script_loop (pre ++ c :: post) st
    = (Some e, mkLoopState (commands st ++ cmds)
                           (ordinal st + count_command_nodes pre) out).
Proof.
  unfold count_command_nodes.
  intros Hall Hcmd Hc. induction pre as [|child rest IH]; intros st.
  - exists [], (stdout st). cbn [app filter List.length].
    rewrite (loop_raises c post st e Hcmd Hc), app_nil_r, Nat.add_0_r.
    now destruct st.
  - assert (Hrest : all_commands_build rest)
      by (intros n Hn; apply Hall; now right).
    cbn [app filter]. destruct (is_command_node child) eqn:Hchild.
    + destruct (Hall child (or_introl eq_refl) Hchild) as [c0 Hc0].
      rewrite (loop_appends child _ st c0 Hchild Hc0).
      destruct (IH Hrest (mkLoopState (commands st ++ [c0]) (ordinal st + 1)
                                      (stdout st)))
        as (cmds & out & Hloop).
      exists (c0 :: cmds), out. rewrite Hloop.
      cbn [commands ordinal List.length].
      rewrite <- app_assoc. do 2 f_equal. lia.
    + destruct (loop_skips child (rest ++ c :: post) st Hchild)
        as [out0 Hskip].
      rewrite Hskip.
      destruct (IH Hrest (mkLoopState (commands st) (ordinal st) out0))
        as (cmds & out & Hloop).
      exists cmds, out. now rewrite Hloop.
Qed.

(** The ordinal is one more than the number of commands built. *)
Lemma loop_ordinal_invariant (nodes : list Node) :
  forall st r st',
    parse_script_loop nodes st = (r, st') ->
    ordinal st = 1 + List.length (commands st) ->
    ordinal st' = 1 + List.length (commands st').
Proof.
  induction nodes as [|child rest IH]; intros st r st' Hloop Hinv.
  - cbn in Hloop. inversion Hloop; subst. exact Hinv.
  - cbn [parse_script_loop] in Hloop.
    match type of Hloop with
    | context [match ?p with Ok _ => _ | Raise _ => _ end] =>
        destruct p as [out|e0]
    end; [|inversion Hloop; subst; exact Hinv].
    destruct (negb (Py.endswith (Py.casefold (Node_type child)) "_command")).
    + apply (IH _ _ _ Hloop). exact Hinv.
    + destruct (parse_command child) as [c|e0].
      * apply (IH _ _ _ Hloop). cbn [ordinal commands].
        rewrite length_app. cbn [List.length]. lia.
      * inversion Hloop; subst. exact Hinv.
Qed.

(* ------------------------------------------------------------------ *)
(** * The facade [parse_script] *)

Lemma parse_script_try_no_errors (self : CEDARScriptASTParser)
      (code_text : string) (root : Node) :
  parser_parse self (Bytes code_text) = Ok root ->
  _collect_parse_errors None root code_text 1 = [] ->
  parse_script_try self code_text
  = match parse_script_loop (children root) initial_state with
    | (Some e, st) => (Raise e, st)
    | (None, st) => (Ok (commands st, []), st)
    end.
Proof.
  intros Hparse Hnone. unfold parse_script_try.
  rewrite Hparse. cbn [ordinal]. rewrite Hnone. reflexivity.
Qed.

Lemma parse_script_try_errors (self : CEDARScriptASTParser)
      (code_text : string) (root : Node) :
  parser_parse self (Bytes code_text) = Ok root ->
  _collect_parse_errors None root code_text 1 <> [] ->
  parse_script_try self code_text
  = (Ok ([], _collect_parse_errors None root code_text 1), initial_state).
Proof.
  intros Hparse Hsome. unfold parse_script_try.
  rewrite Hparse. cbn [ordinal].
  destruct (_collect_parse_errors None root code_text 1); [congruence|].
  reflexivity.
Qed.

(** C1. [parse_script] always returns a pair of lists, at most one of which
    is non-empty; when an exception escapes the parsing or the construction
    of the commands, the pair is no command and the single diagnostic with
    line 0, column 0, the generic suggestion, the description of the
    exception as message and the ordinal reached when it was raised, which
    is one more than the number of commands built until then. *)
Theorem parse_script_never_raises (self : CEDARScriptASTParser)
        (code_text : string) :
  exists cmds diagnostics,
    parse_script self code_text = Ok (cmds, diagnostics)
    /\ (cmds = [] \/ diagnostics = [])
    /\ (forall e st,
           parse_script_try self code_text = (Raise e, st) ->
           cmds = []
           /\ diagnostics = [ {| command_ordinal := ordinal st;
                                 message := Exception_str e;
                                 line := 0;
                                 column := 0;
                                 suggestion := "Revise your CEDARScript syntax."
                              |} ]
           /\ ordinal st = 1 + List.length (commands st)).
Proof.
  unfold parse_script.
  destruct (parse_script_try self code_text) as [[[cmds ds]|e] st] eqn:Htry.
  - exists cmds, ds. split; [reflexivity|]. split; [|discriminate].
    unfold parse_script_try in Htry.
    destruct (parser_parse self (Bytes code_text)) as [root|e0];
      [|discriminate].
    destruct (_collect_parse_errors None root code_text _).
    + destruct (parse_script_loop (children root) _) as [[e1|] st1];
        inversion Htry; now right.
    + inversion Htry; now left.
  - eexists _, _. split; [reflexivity|]. split; [now left|].
    intros e' st' H. inversion H; subst. split; [reflexivity|].
    split; [reflexivity|].
    unfold parse_script_try in Htry.
    destruct (parser_parse self (Bytes code_text)) as [root|e0].
    + destruct (_collect_parse_errors None root code_text _);
        [|discriminate].
      destruct (parse_script_loop (children root) _) as [[e1|] st1] eqn:L;
        inversion Htry; subst.
      exact (loop_ordinal_invariant _ _ _ _ L eq_refl).
    + inversion Htry; subst. reflexivity.
Qed.

Lemma parse_script_never_raises_witness :
  parse_script (parser_returning failing_root) ""
  = Ok ([], [ {| command_ordinal := 2;
                 message := "Unexpected command type: select_command";
                 line := 0;
                 column := 0;
                 suggestion := "Revise your CEDARScript syntax." |} ]).
Proof.
  destruct (parse_script_never_raises (parser_returning failing_root) "")
    as (cmds & ds & Hret & _ & Hexc).
  destruct (Hexc (ValueError "Unexpected command type: select_command")
                 (mkLoopState [CreateCommand "create" "a.py" "x"] 2
                              ["(COMMENT) a comment"])
                 eq_refl) as (-> & -> & _).
  exact Hret.
Defined.

Lemma flat_map_same {A B : Type} (f g : A -> list B) (l : list A) :
  Forall (fun a => f a = g a) l -> flat_map f l = flat_map g l.
Proof.
  induction 1 as [|a l Ha _ IH]; cbn; [reflexivity | now rewrite Ha, IH].
Qed.

(** The collector reports the reached error nodes, one diagnostic each. *)
Lemma collected_errors_are_reached (code_text : string)
      (command_ordinal0 : nat) (n : Node) :
  forall parent,
    _collect_parse_errors parent n code_text command_ordinal0
    = map (fun pn => error_of_node (fst pn) (snd pn) code_text command_ordinal0)
          (reached_error_nodes parent n).
Proof.
  induction n as [n IH] using Node_ind; intros parent.
  destruct n as [t nm he sp sb eb tx cs].
  cbn [_collect_parse_errors reached_error_nodes has_error children].
  unfold is_error_node. cbn [Node_type app].
  destruct he; [|reflexivity].
  rewrite map_app. f_equal.
  - destruct (String.eqb t "ERROR"); reflexivity.
  - apply flat_map_pointwise. cbn [children] in IH.
    eapply Forall_impl; [|exact IH]. cbn. intros c Hc. apply Hc.
Qed.

Lemma reached_error_nodes_none (n : Node) :
  forall parent, contains_error n = false -> reached_error_nodes parent n = [].
Proof.
  induction n as [n IH] using Node_ind; intros parent H.
  destruct n as [t nm he sp sb eb tx cs]; simpl in *.
  apply orb_false_iff in H as [Herr Hcs]. rewrite Herr.
  destruct he; [|reflexivity]. cbn [app].
  now apply (nothing_below reached_error_nodes cs IH Hcs).
Qed.

(** When the flags cover the error nodes, all of them are reached. *)
Lemma reached_error_nodes_covered (n : Node) :
  forall parent,
    flags_cover_errors n = true ->
    reached_error_nodes parent n = error_nodes parent n.
Proof.
  induction n as [n IH] using Node_ind; intros parent Hflags.
  destruct (contains_error n) eqn:Hce.
  - destruct n as [t nm he sp sb eb tx cs].
    cbn [flags_cover_errors children has_error] in Hflags.
    rewrite Hce in Hflags. apply andb_true_iff in Hflags as [Hhe Hcs].
    cbn [implb] in Hhe. subst he.
    cbn [reached_error_nodes error_nodes has_error children]. f_equal.
    apply flat_map_same. cbn [children] in IH.
    rewrite forallb_forall in Hcs. rewrite Forall_forall in IH |- *.
    intros c Hc. exact (IH c Hc _ (Hcs c Hc)).
  - now rewrite (error_nodes_none n parent Hce),
      (reached_error_nodes_none n parent Hce).
Qed.

Lemma reached_at_most_error_nodes (n : Node) :
  forall parent,
    List.length (reached_error_nodes parent n)
    <= List.length (error_nodes parent n).
Proof.
  induction n as [n IH] using Node_ind; intros parent.
  destruct n as [t nm he sp sb eb tx cs].
  cbn [reached_error_nodes error_nodes has_error children].
  destruct he; [|cbn; lia].
  rewrite !length_app.
  assert (Hbelow : forall p,
             List.length (flat_map (reached_error_nodes p) cs)
             <= List.length (flat_map (error_nodes p) cs)).
  { cbn [children] in IH. clear - IH. intros p.
    induction IH as [|c cs' Hc _ IHcs]; cbn; [lia|].
    rewrite !length_app. specialize (Hc p). lia. }
  specialize (Hbelow (Some (mkNode t nm true sp sb eb tx cs))). lia.
Qed.

(** C2, the claim as stated fails: in this tree the error node holds a
    second error node whose [has_error] flag is not set; the tree has two
    error nodes and [parse_script] returns one diagnostic. *)
Lemma unflagged_error_counterexample :
  contains_error nested_errors_root = true
  /\ count_error_nodes nested_errors_root = 2
  /\ parse_script (parser_returning nested_errors_root) erroneous_script
     = Ok ([], [ {| command_ordinal := 1;
                    message :=
                      "Syntax error near 'UPDATE ???' at line 1, column 38.";
                    line := 1;
                    column := 38;
                    suggestion :=
                      "Please check the syntax near the error (parent node: source_file)"
                 |} ]).
Proof. split; [reflexivity | split; reflexivity]. Qed.

(** C2, amended. When the collector reaches an error node of the tree of a
    script, that is an error node whose [has_error] flag is set and that
    lies under flagged nodes only, [parse_script] returns no command
    together with all the collected diagnostics: one for each reached error
    node, in document order, each with a line and a column of at least 1.
    Error nodes that are not reached are not reported, so there are at most
    as many diagnostics as error nodes, and exactly one for each error node
    when the flag is set on every error node and on every node above one. *)
Theorem reached_errors_diagnostics (self : CEDARScriptASTParser)
        (code_text : string) (root : Node) :
  parser_parse self (Bytes code_text) = Ok root ->
  reached_error_nodes None root <> [] ->
  exists diagnostics,
    parse_script self code_text = Ok ([], diagnostics)
    /\ diagnostics = _collect_parse_errors None root code_text 1
    /\ diagnostics
       = map (fun pn => error_of_node (fst pn) (snd pn) code_text 1)
             (reached_error_nodes None root)
    /\ 1 <= List.length diagnostics
    /\ List.length diagnostics <= count_error_nodes root
    /\ Forall (fun d => 1 <= line d /\ 1 <= column d) diagnostics
    /\ (flags_cover_errors root = true ->
        reached_error_nodes None root = error_nodes None root
        /\ List.length diagnostics = count_error_nodes root).
Proof.
  intros Hparse Hreached.
  pose proof (collected_errors_are_reached code_text 1 root None) as Hmap.
  assert (Hlen : List.length (_collect_parse_errors None root code_text 1)
                 = List.length (reached_error_nodes None root))
    by (rewrite Hmap; apply length_map).
  assert (Hsome : _collect_parse_errors None root code_text 1 <> []).
  { rewrite Hmap.
    destruct (reached_error_nodes None root); [congruence|discriminate]. }
  exists (_collect_parse_errors None root code_text 1).
  split; [|split; [reflexivity|split; [exact Hmap|split; [|split; [|split]]]]].
  - unfold parse_script.
    now rewrite (parse_script_try_errors self code_text root Hparse Hsome).
  - rewrite Hlen.
    destruct (reached_error_nodes None root); [congruence | simpl; lia].
  - rewrite Hlen. apply reached_at_most_error_nodes.
  - apply Forall_forall. intros d Hd.
    now destruct (collected_error_fields code_text 1 root None d Hd)
      as (_ & Hl & Hc).
  - intros Hflags.
    pose proof (reached_error_nodes_covered root None Hflags) as Hcov.
    split; [exact Hcov|]. rewrite Hlen, Hcov. reflexivity.
Qed.

Lemma reached_errors_diagnostics_witness :
  exists diagnostics,
    parse_script (parser_returning nested_errors_root) erroneous_script
    = Ok ([], diagnostics)
    /\ diagnostics
       = _collect_parse_errors None nested_errors_root erroneous_script 1
    /\ diagnostics
       = map (fun pn => error_of_node (fst pn) (snd pn) erroneous_script 1)
             (reached_error_nodes None nested_errors_root)
    /\ 1 <= List.length diagnostics
    /\ List.length diagnostics <= count_error_nodes nested_errors_root
    /\ Forall (fun d => 1 <= line d /\ 1 <= column d) diagnostics
    /\ (flags_cover_errors nested_errors_root = true ->
        reached_error_nodes None nested_errors_root
        = error_nodes None nested_errors_root
        /\ List.length diagnostics = count_error_nodes nested_errors_root).
Proof.
  apply (reached_errors_diagnostics (parser_returning nested_errors_root)
                                    erroneous_script nested_errors_root).
  - reflexivity.
  - discriminate.
Defined.

Example erroneous_script_result :
  parse_script (parser_returning erroneous_root) erroneous_script
  = Ok ([], [ {| command_ordinal := 1;
                 message :=
                   "Syntax error near 'UPDATE ???' at line 1, column 38.";
                 line := 1;
                 column := 38;
                 suggestion :=
                   "Please check the syntax near the error (parent node: source_file)"
              |} ]).
Proof. reflexivity. Qed.

(** C10. Every diagnostic of the structural error collector carries the
    ordinal 1: [parse_script] calls the collector once, with the ordinal 1,
    before it counts any command, and the collector hands that ordinal down
    unchanged. *)
Theorem collected_ordinal_is_one (self : CEDARScriptASTParser)
        (code_text : string) (root : Node) :
  parser_parse self (Bytes code_text) = Ok root ->
  let diagnostics := _collect_parse_errors None root code_text 1 in
  Forall (fun d => command_ordinal d = 1) diagnostics
  /\ (diagnostics <> [] ->
      parse_script self code_text = Ok ([], diagnostics)).
Proof.
  intros Hparse diagnostics. split.
  - apply Forall_forall. intros d Hd.
    now destruct (collected_error_fields code_text 1 root None d Hd).
  - intros Hsome. unfold parse_script.
    now rewrite (parse_script_try_errors self code_text root Hparse Hsome).
Qed.

Lemma collected_ordinal_is_one_witness :
  let diagnostics :=
    _collect_parse_errors None erroneous_root erroneous_script 1 in
  Forall (fun d => command_ordinal d = 1) diagnostics
  /\ (diagnostics <> [] ->
      parse_script (parser_returning erroneous_root) erroneous_script
      = Ok ([], diagnostics)).
Proof.
  apply (collected_ordinal_is_one (parser_returning erroneous_root)
                                  erroneous_script erroneous_root).
  reflexivity.
Defined.




(** C9. The commands of a script are built all or none: when the commands
    of the top-level nodes before a command node are built and that node,
    the N-th command node, raises, the N-1 commands built so far stay behind
    in the abandoned state of the loop and [parse_script] returns no command
    and the single synthetic diagnostic whose ordinal is N.  A node whose
    type ends with [_command] and is not one of the four known command types
    raises. *)
Theorem failing_command_drops_all (self : CEDARScriptASTParser)
        (code_text : string) (root : Node)
        (pre : list Node) (c : Node) (post : list Node) (e : Exception) :
  parser_parse self (Bytes code_text) = Ok root ->
  _collect_parse_errors None root code_text 1 = [] ->
  children root = (pre ++ c :: post)%list ->
  all_commands_build pre ->
  is_command_node c = true ->
  parse_command c = Raise e ->
  parse_script self code_text
  = Ok ([], [ {| command_ordinal := count_command_nodes pre + 1;
                 message := Exception_str e;
                 line := 0;
                 column := 0;
                 suggestion := "Revise your CEDARScript syntax." |} ])
  /\ (exists st,
         parse_script_try self code_text = (Raise e, st)
         /\ List.length (commands st) = count_command_nodes pre)
  /\ (forall n,
         is_command_node n = true ->
         Node_type n <> "create_command" ->
         Node_type n <> "rm_file_command" ->
         Node_type n <> "mv_file_command" ->
         Node_type n <> "update_command" ->
         parse_command n
         = Raise (ValueError ("Unexpected command type: " ++ Node_type n))).
Proof.
  intros Hparse Hnone Hsplit Hall Hcmd Hc.
  destruct (loop_stops_at pre c post e Hall Hcmd Hc initial_state)
    as (cmds & out & Hloop).
  pose proof (parse_script_try_no_errors self code_text root Hparse Hnone)
    as Htry.
  rewrite Hsplit, Hloop in Htry.
  split; [|split].
  - unfold parse_script. rewrite Htry. unfold parse_script_except.
    cbn [ordinal initial_state]. do 4 f_equal.
    apply Nat.add_comm.
  - eexists. split; [exact Htry|].
    pose proof (loop_ordinal_invariant _ _ _ _ Hloop eq_refl) as Hinv.
    cbn [ordinal commands initial_state] in Hinv |- *. lia.
  - intros n _ H1 H2 H3 H4. unfold parse_command.
    apply String.eqb_neq in H1, H2, H3, H4.
    now rewrite H1, H2, H3, H4.
Qed.

Lemma failing_pre_commands_build :
  all_commands_build [comment_node; create_node].
Proof.
  intros n Hn Hcmd.
  destruct Hn as [<-|[<-|[]]]; [discriminate Hcmd | eexists; reflexivity].
Defined.

Lemma failing_command_drops_all_witness :
  parse_script (parser_returning failing_root) ""
  = Ok ([], [ {| command_ordinal := 2;
                 message := "Unexpected command type: select_command";
                 line := 0;
                 column := 0;
                 suggestion := "Revise your CEDARScript syntax." |} ]).
Proof.
  exact (proj1 (failing_command_drops_all
                  (parser_returning failing_root) "" failing_root
                  [comment_node; create_node] select_node [rm_file_node]
                  (ValueError "Unexpected command type: select_command")
                  eq_refl eq_refl eq_refl failing_pre_commands_build
                  eq_refl eq_refl)).
Defined.

(* ------------------------------------------------------------------ *)
(** * Decoding of quoted strings *)

Lemma strip_quote_chars (s : string) :
  Py.strip s quote_chars = Py.rstrip_by is_quote (Py.lstrip_by is_quote s).
Proof. reflexivity. Qed.

Lemma lstrip_begins (s : string) :
  begins_with_quote (Py.lstrip_by is_quote s) = false.
Proof.
  induction s as [|c s IH]; [reflexivity|]. cbn [Py.lstrip_by].
  destruct (is_quote c) eqn:E; [exact IH | exact E].
Qed.

Lemma rstrip_keeps_begin (s : string) :
  begins_with_quote s = false ->
  begins_with_quote (Py.rstrip_by is_quote s) = false.
Proof.
  destruct s as [|c s]; [reflexivity|]. cbn [begins_with_quote Py.rstrip_by].
  intros E. rewrite E. now destruct (Py.rstrip_by is_quote s).
Qed.

Lemma rstrip_ends (s : string) :
  ends_with_quote (Py.rstrip_by is_quote s) = false.
Proof.
  induction s as [|c s IH]; [reflexivity|]. cbn [Py.rstrip_by].
  destruct (Py.rstrip_by is_quote s) as [|d r] eqn:R.
  - destruct (is_quote c) eqn:E; [reflexivity | exact E].
  - exact IH.
Qed.

Lemma rstrip_unquoted_end (s : string) :
  ends_with_quote s = false -> Py.rstrip_by is_quote s = s.
Proof.
  induction s as [|c s IH]; [reflexivity|]. intros E.
  destruct s as [|d r].
  - cbn [ends_with_quote] in E. cbn [Py.rstrip_by]. now rewrite E.
  - cbn [ends_with_quote] in E. cbn [Py.rstrip_by].
    change (match Py.rstrip_by is_quote (String d r) with
            | "" => if is_quote c then "" else String c ""
            | String a r0 => String c (String a r0)
            end = String c (String d r)).
    now rewrite (IH E).
Qed.

Lemma rstrip_closing_quote (s : string) (q : ascii) :
  is_quote q = true ->
  Py.rstrip_by is_quote (s ++ String q "") = Py.rstrip_by is_quote s.
Proof.
  intros Q. induction s as [|c s IH].
  - cbn [append Py.rstrip_by]. now rewrite Q.
  - cbn [append Py.rstrip_by]. now rewrite IH.
Qed.

Lemma strip_one_layer (q1 q2 : ascii) (content : string) :
  is_quote q1 = true ->
  is_quote q2 = true ->
  begins_with_quote content = false ->
  ends_with_quote content = false ->
  Py.strip (String q1 (content ++ String q2 "")) quote_chars = content.
Proof.
  intros Q1 Q2 B E. rewrite strip_quote_chars. cbn [Py.lstrip_by]. rewrite Q1.
  destruct content as [|c r].
  - cbn [append Py.lstrip_by Py.rstrip_by]. now rewrite Q2.
  - cbn [begins_with_quote] in B. cbn [append Py.lstrip_by]. rewrite B.
    change (String c (r ++ String q2 "")) with (String c r ++ String q2 "").
    rewrite (rstrip_closing_quote _ q2 Q2).
    now apply rstrip_unquoted_end.
Qed.

(** C4, the claim as stated fails: the token made of a double quote, ['a']
    and a double quote decodes to [a], whereas taking one layer of matching
    quotes off leaves ['a']. *)
Lemma quoted_string_one_layer_counterexample :
  parse_string (Some nested_quotes_token) = Ok "a"
  /\ spec_strip_one_layer (decode (text nested_quotes_token)) = "'a'"
  /\ parse_string (Some nested_quotes_token)
     <> Ok (spec_strip_one_layer (decode (text nested_quotes_token))).
Proof. split; [reflexivity | split; [reflexivity | discriminate]]. Qed.

(** C4, amended. Decoding a quoted string token removes every leading and
    every trailing quote character, double or single, matching or not; for
    the escaped-single-quote style the escaped quotes are unescaped first.
    The decoded text thus never begins or ends with a quote character, and
    it is the content between the first and the last character of the text
    when these two are quote characters and the content neither begins nor
    ends with one.  The token ['it\'s ok'] decodes to [it's ok]. *)
Theorem quoted_string_decoding (node : Node) :
  (Py.casefold (Node_type node) = "raw_string" ->
   parse_string (Some node) = Ok (Py.strip (decode (text node)) quote_chars))
  /\ (Py.casefold (Node_type node) = "single_quoted_string" ->
      parse_string (Some node)
      = Ok (Py.strip (unescape_quotes (decode (text node))) quote_chars))
  /\ (forall s,
         begins_with_quote (Py.strip s quote_chars) = false
         /\ ends_with_quote (Py.strip s quote_chars) = false)
  /\ (forall q1 q2 content,
         is_quote q1 = true ->
         is_quote q2 = true ->
         begins_with_quote content = false ->
         ends_with_quote content = false ->
         Py.strip (String q1 (content ++ String q2 "")) quote_chars = content)
  /\ parse_string (Some escaped_token) = Ok "it's ok".
Proof.
  split; [|split; [|split; [|split]]].
  - intros H. unfold parse_string. cbn [getattr_of bind]. rewrite H.
    change (String.eqb "raw_string" "string") with false. cbn [bind].
    rewrite H. reflexivity.
  - intros H. unfold parse_string. cbn [getattr_of bind]. rewrite H.
    change (String.eqb "single_quoted_string" "string") with false.
    cbn [bind]. rewrite H. reflexivity.
  - intros s. rewrite strip_quote_chars. split.
    + apply rstrip_keeps_begin, lstrip_begins.
    + apply rstrip_ends.
  - exact strip_one_layer.
  - reflexivity.
Qed.

Lemma quoted_string_decoding_witness :
  parse_string (Some escaped_token) = Ok "it's ok"
  /\ parse_string (Some (leaf "raw_string" "'abc'")) = Ok "abc".
Proof.
  split.
  - exact (proj1 (proj2 (quoted_string_decoding escaped_token)) eq_refl).
  - exact (eq_trans
             (proj1 (quoted_string_decoding (leaf "raw_string" "'abc'"))
                    eq_refl)
             (f_equal Ok
                (proj1 (proj2 (proj2 (proj2
                          (quoted_string_decoding escaped_token))))
                       "'"%char "'"%char "abc"
                       eq_refl eq_refl eq_refl eq_refl))).
Defined.

(* ------------------------------------------------------------------ *)
(** * Decoding of relative-indent blocks *)

Lemma undecoded_line_skipped (line_node : Node) (rest : list Node)
      (lines : list string) :
  is_decoded_line line_node = false ->
  relative_indent_lines (line_node :: rest) lines
  = relative_indent_lines rest lines.
Proof.
  unfold is_decoded_line, has_indent_prefix, has_content.
  intros H. cbn [relative_indent_lines].
  destruct (String.eqb (Node_type line_node) "relative_indent_line");
    [|reflexivity].
  destruct (find_first_by_type (children line_node)
                               (OneType "relative_indent_prefix"));
    [|reflexivity].
  destruct (find_first_by_type (children line_node)
                               (OneType "match_any_char"));
    [discriminate H | reflexivity].
Qed.

Lemma decoded_lines_only (line_nodes : list Node) :
  forall lines,
    relative_indent_lines line_nodes lines
    = relative_indent_lines (filter is_decoded_line line_nodes) lines.
Proof.
  induction line_nodes as [|line_node rest IH]; intros lines; [reflexivity|].
  cbn [filter]. destruct (is_decoded_line line_node) eqn:D.
  - unfold is_decoded_line, has_indent_prefix, has_content in D.
    cbn [relative_indent_lines].
    destruct (String.eqb (Node_type line_node) "relative_indent_line");
      [|discriminate D].
    destruct (find_first_by_type (children line_node)
                                 (OneType "relative_indent_prefix"));
      [|discriminate D].
    destruct (find_first_by_type (children line_node)
                                 (OneType "match_any_char"));
      [|discriminate D].
    destruct (bytes_strip _ _); cbn [bind]; [|reflexivity].
    destruct (int_of_bytes _); cbn [bind]; [|reflexivity].
    apply IH.
  - rewrite (undecoded_line_skipped line_node rest lines D). apply IH.
Qed.

(** C5, the claim as stated fails: a line that has an indent prefix and no
    content does not lack both, and the decoder skips it. *)
Lemma relative_indent_skip_counterexample :
  relative_indent_lines [prefix_only_line] [] = Ok []
  /\ parse_relative_indent_block
       (inner "relative_indent_block" [prefix_only_line]) = Ok ""
  /\ ~ (has_indent_prefix prefix_only_line = false
        /\ has_content prefix_only_line = false).
Proof.
  split; [reflexivity | split; [reflexivity|]].
  intros [H _]. discriminate H.
Qed.

(** C5, amended. Decoding a relative-indent block skips every child that is
    not a [relative_indent_line] and every line that lacks an indent prefix
    or lacks content, one of the two being enough: such a child adds nothing
    to the lines, the block decodes as the block without these children
    does, and a block of such children only decodes to the empty text. *)
Theorem relative_indent_block_skips (node : Node) :
  (forall line_node rest lines,
      Node_type line_node <> "relative_indent_line"
      \/ has_indent_prefix line_node = false
      \/ has_content line_node = false ->
      relative_indent_lines (line_node :: rest) lines
      = relative_indent_lines rest lines)
  /\ (forall lines,
         relative_indent_lines (children node) lines
         = relative_indent_lines (filter is_decoded_line (children node))
                                 lines)
  /\ (filter is_decoded_line (children node) = [] ->
      parse_relative_indent_block node = Ok "").
Proof.
  split; [|split].
  - intros line_node rest lines H. apply undecoded_line_skipped.
    unfold is_decoded_line.
    destruct H as [H|[H|H]].
    + apply String.eqb_neq in H. now rewrite H.
    + rewrite H. now rewrite andb_false_r.
    + rewrite H. now rewrite andb_false_r.
  - apply decoded_lines_only.
  - intros H. unfold parse_relative_indent_block.
    now rewrite decoded_lines_only, H.
Qed.

Lemma relative_indent_block_skips_witness :
  parse_relative_indent_block skipped_lines_block = Ok ""
  /\ relative_indent_lines (children skipped_lines_block) []
     = relative_indent_lines [token "newline"; inner "relative_indent_line" []]
                             [].
Proof.
  split.
  - exact (proj2 (proj2 (relative_indent_block_skips skipped_lines_block))
                 eq_refl).
  - exact (proj1 (relative_indent_block_skips skipped_lines_block)
                 prefix_only_line
                 [token "newline"; inner "relative_indent_line" []] []
                 (or_intror (or_intror eq_refl))).
Defined.

(** On the lines [@0:def foo():] and [@1:pass] the decoder stops at the
    first one: it strips the bytes of the indent prefix with a [str]
    argument. *)
Example relative_indent_block_def_foo :
  parse_relative_indent_block def_foo_block
  = Raise (TypeError "a bytes-like object is required, not 'str'").
Proof. reflexivity. Qed.

(** In [parse_content_clause] the content node is found by its type:
    when it is neither a [string] nor a [relative_indent_block], it is a
    [multiline_string], the last case of the chain of tests. *)
Lemma content_node_last_case (nodes : list Node) (content_node : Node) :
  find_first_by_type
    nodes (TypeList ["string"; "relative_indent_block"; "multiline_string"])
  = Some content_node ->
  String.eqb (Node_type content_node) "string" = false ->
  String.eqb (Node_type content_node) "relative_indent_block" = false ->
  Node_type content_node = "multiline_string".
Proof.
  cbn [find_first_by_type]. intros H H1 H2.
  apply find_some in H as [_ H]. cbn [existsb] in H.
  rewrite H1, H2 in H. cbn [orb] in H.
  rewrite orb_false_r in H. now apply String.eqb_eq.
Qed.

(* ------------------------------------------------------------------ *)
(** * Regions: the recursion of [parse_region] is bounded by the tree *)

Lemma node_height_positive (n : Node) : 1 <= node_height n.
Proof. destruct n; simpl; lia. Qed.

Lemma child_height (n c : Node) :
  In c (children n) -> node_height c < node_height n.
Proof.
  destruct n as [t nm he sp sb eb tx cs]; cbn [children node_height].
  induction cs as [|d ds IH]; intros H; [contradiction|].
  destruct H as [->|H]; [lia|]. specialize (IH H). lia.
Qed.

Lemma named_child_height (n c : Node) :
  In c (named_children n) -> node_height c < node_height n.
Proof.
  unfold named_children. intros H. apply filter_In in H as [H _].
  now apply child_height.
Qed.

Lemma list_index_In {A : Type} (l : list A) (i : nat) (a : A) :
  list_index l i = Ok a -> In a l.
Proof.
  unfold list_index. destruct (nth_error l i) eqn:E; [|discriminate].
  intros H; inversion H; subst. exact (nth_error_In l i E).
Qed.

Lemma find_first_by_type_In (nodes : list Node) (child_type : type_arg)
      (n : Node) :
  find_first_by_type nodes child_type = Some n -> In n nodes.
Proof.
  destruct child_type; cbn [find_first_by_type]; intros H;
    now apply find_some in H.
Qed.


Lemma parse_region_unwrap_height (n n' : Node)
      (q : option RelativePositionType) :
  parse_region_unwrap n = Ok (q, n') -> node_height n' <= node_height n.
Proof.
  unfold parse_region_unwrap.
  repeat match goal with
         | |- context [if ?b then _ else _] => destruct b
         | |- context [bind ?m _] =>
             let E := fresh "E" in
             destruct m eqn:E; cbn [bind]; [|discriminate]
         end;
    intros H; inversion H; subst; clear H;
    repeat match goal with
           | H : list_index (named_children _) _ = Ok _ |- _ =>
               apply list_index_In, named_child_height in H
           | H : list_index (children _) _ = Ok _ |- _ =>
               apply list_index_In, child_height in H
           end;
    lia.
Qed.

Lemma parse_segment_with_agree
      (r1 r2 : option Node -> result Region) (n : Node) :
  (forall m, node_height m + 2 <= node_height n ->
             r1 (Some m) = r2 (Some m)) ->
  parse_segment_with r1 n = parse_segment_with r2 n.
Proof.
  intros Hagree. unfold parse_segment_with.
  destruct (find_first_by_type (named_children n)
                               (OneType "relpos_segment_start"))
    as [s|] eqn:Fs; cbn [getattr_of bind]; [|reflexivity].
  destruct (list_index (children s) 1) as [rs|] eqn:Is; cbn [bind];
    [|reflexivity].
  destruct (find_first_by_type (named_children n)
                               (OneType "relpos_segment_end"))
    as [e|] eqn:Fe; cbn [getattr_of bind]; [|reflexivity].
  destruct (list_index (children e) 1) as [re|] eqn:Ie; cbn [bind];
    [|reflexivity].
  apply find_first_by_type_In, named_child_height in Fs, Fe.
  apply list_index_In, child_height in Is, Ie.
  rewrite (Hagree rs), (Hagree re) by lia. reflexivity.
Qed.

(** Any depth from the height of the tree on gives the same outcome. *)
Lemma parse_region_rec_stable (d1 : nat) :
  forall d2 n,
    node_height n <= d1 -> node_height n <= d2 ->
    parse_region_rec d1 (Some n) = parse_region_rec d2 (Some n).
Proof.
  induction d1 as [|d1 IH]; intros d2 n H1 H2;
    pose proof (node_height_positive n) as Hpos; [lia|].
  destruct d2 as [|d2]; [lia|].
  cbn [parse_region_rec getattr_of bind].
  destruct (parse_region_unwrap n) as [[q n']|e] eqn:U; cbn [bind];
    [|reflexivity].
  apply parse_region_unwrap_height in U.
  rewrite (parse_segment_with_agree (parse_region_rec d1)
                                    (parse_region_rec d2) n').
  - reflexivity.
  - intros m Hm. apply IH; lia.
Qed.

Lemma parse_region_rec_enough (d : nat) (n : Node) :
  node_height n <= d ->
  parse_region_rec d (Some n) = parse_region (Some n).
Proof.
  intros H. unfold parse_region. now apply parse_region_rec_stable.
Qed.

(** ** The depth is never exhausted *)

Lemma within_depth_bind {A B : Type} (m : result A) (k : A -> result B) :
  within_depth m -> (forall a, m = Ok a -> within_depth (k a)) ->
  within_depth (bind m k).
Proof. destruct m as [a|e]; cbn; auto. Qed.

Ltac within_depth_step :=
  match goal with
  | |- within_depth (Ok _) => exact I
  | |- within_depth (Raise (ValueError _)) => exact I
  | |- within_depth (Raise (AttributeError _)) => exact I
  | |- within_depth (Raise (IndexError _)) => exact I
  | |- within_depth (Raise (TypeError _)) => exact I
  | |- within_depth (Raise (not_a_valid _ _)) => exact I
  | |- within_depth (bind _ _) =>
      apply within_depth_bind; [|intros ? ?]
  | |- within_depth (if ?b then _ else _) => destruct b
  | |- within_depth (match ?o with Some _ => _ | None => _ end) =>
      destruct o
  | |- within_depth (let '(_, _) := ?p in _) => destruct p
  end.

Lemma getattr_of_Ok {A : Type} (o : option A) (attr : string) (a : A) :
  getattr_of o attr = Ok a -> o = Some a.
Proof. destruct o; cbn; intros H; now inversion H. Qed.

Lemma within_depth_getattr {A : Type} (o : option A) (attr : string) :
  within_depth (getattr_of o attr).
Proof. destruct o; exact I. Qed.

Lemma within_depth_list_index {A : Type} (l : list A) (i : nat) :
  within_depth (list_index l i).
Proof. unfold list_index. destruct (nth_error l i); exact I. Qed.

Lemma within_depth_int_of_bytes (b : bytes) : within_depth (int_of_bytes b).
Proof. unfold int_of_bytes. destruct (int_literal (raw b)); exact I. Qed.

Lemma within_depth_parse_string (node : option Node) :
  within_depth (parse_string node).
Proof.
  unfold parse_string.
  repeat (first [ apply within_depth_getattr
                | apply within_depth_list_index
                | within_depth_step ]).
Qed.

Lemma within_depth_parse_offset_clause (node : option Node) :
  within_depth (parse_offset_clause node).
Proof.
  unfold parse_offset_clause.
  repeat (first [ apply within_depth_getattr
                | apply within_depth_int_of_bytes
                | within_depth_step ]).
Qed.

Lemma within_depth_parse_marker (node : Node) :
  within_depth (parse_marker node).
Proof.
  unfold parse_marker, MarkerType_of.
  repeat (first [ apply within_depth_list_index
                | apply within_depth_parse_string
                | apply within_depth_parse_offset_clause
                | within_depth_step ]).
Qed.

Lemma within_depth_unwrap (node : Node) :
  within_depth (parse_region_unwrap node).
Proof.
  unfold parse_region_unwrap, qualifier_of_first_child,
    RelativePositionType_of.
  repeat (first [ apply within_depth_getattr
                | apply within_depth_list_index
                | within_depth_step ]).
Qed.

Lemma within_depth_qualify (q : option RelativePositionType) (r : Region) :
  within_depth (parse_region_qualify q r).
Proof. destruct q, r; exact I. Qed.

Lemma within_depth_segment (r : option Node -> result Region) (n : Node) :
  (forall m, node_height m + 2 <= node_height n -> within_depth (r (Some m))) ->
  within_depth (parse_segment_with r n).
Proof.
  intros Hr. unfold parse_segment_with.
  apply within_depth_bind; [apply within_depth_getattr|]. intros s Fs.
  apply within_depth_bind; [apply within_depth_list_index|]. intros rs Is.
  apply within_depth_bind; [apply within_depth_getattr|]. intros e Fe.
  apply within_depth_bind; [apply within_depth_list_index|]. intros re Ie.
  apply getattr_of_Ok in Fs, Fe.
  apply find_first_by_type_In, named_child_height in Fs, Fe.
  apply list_index_In, child_height in Is, Ie.
  apply within_depth_bind; [apply Hr; lia|]. intros a _.
  apply within_depth_bind; [apply Hr; lia|]. intros b _. exact I.
Qed.

Lemma parse_region_rec_within_depth (d : nat) :
  forall n, node_height n <= d -> within_depth (parse_region_rec d (Some n)).
Proof.
  induction d as [|d IH]; intros n H;
    pose proof (node_height_positive n) as Hpos; [lia|].
  cbn [parse_region_rec getattr_of bind].
  apply within_depth_bind; [apply within_depth_unwrap|].
  intros [q n'] U. apply parse_region_unwrap_height in U.
  apply within_depth_bind; [|intros; apply within_depth_qualify].
  unfold BodyOrWhole_of.
  repeat (first [ apply within_depth_parse_marker
                | within_depth_step ]).
  apply within_depth_segment. intros m Hm. apply IH. lia.
Qed.

(** [parse_region] never runs out of depth. *)
Lemma parse_region_within_depth (node : option Node) :
  within_depth (parse_region node).
Proof.
  unfold parse_region. destruct node as [n|]; [|exact I].
  now apply parse_region_rec_within_depth.
Qed.

(* ------------------------------------------------------------------ *)
(** * Move clauses *)

Lemma parse_region_qualified (q : RelativePositionType) (r r' : Region) :
  parse_region_qualify (Some q) r = Ok r' ->
  exists m, r' = RegionRelativeMarker (mkRelativeMarker q m).
Proof.
  destruct r; cbn; intros H; inversion H; eexists; reflexivity.
Qed.





(* ------------------------------------------------------------------ *)
(** * Further properties: searching the children *)

Lemma find_first_split {A : Type} (f : A -> bool) (l : list A) :
  match find f l with
  | Some a =>
      exists pre post,
        l = (pre ++ a :: post)%list /\ f a = true
        /\ Forall (fun x => f x = false) pre
  | None => Forall (fun x => f x = false) l
  end.
Proof.
  induction l as [|x l IH]; cbn [find]; [constructor|].
  destruct (f x) eqn:E.
  - exists [], l. repeat split; [exact E | constructor].
  - destruct (find f l) as [a|].
    + destruct IH as (pre & post & -> & Ha & Hpre).
      exists (x :: pre), post. repeat split; [exact Ha | now constructor].
    + now constructor.
Qed.

Lemma existsb_eqb_In (t : string) (l : list string) :
  existsb (String.eqb t) l = true <-> In t l.
Proof.
  rewrite existsb_exists. split.
  - intros (x & Hx & E). apply String.eqb_eq in E. now subst.
  - intros H. exists t. split; [exact H | apply String.eqb_refl].
Qed.

(** X1. [find_first_by_type] returns the first node, in the order of the
    list, that has the type (or one of the types) asked for: no node before
    it has; it returns [None] exactly when no node of the list has. *)
Theorem find_first_by_type_first (nodes : list Node) (child_type : type_arg) :
  match find_first_by_type nodes child_type with
  | Some n =>
      exists pre post,
        nodes = (pre ++ n :: post)%list
        /\ has_type child_type n
        /\ Forall (fun c => ~ has_type child_type c) pre
  | None => Forall (fun c => ~ has_type child_type c) nodes
  end.
Proof.
  destruct child_type as [t|l]; cbn [find_first_by_type has_type].
  - pose proof (find_first_split
                  (fun child => String.eqb (Node_type child) t) nodes) as H.
    destruct (find _ nodes) as [n|].
    + destruct H as (pre & post & -> & Hn & Hpre).
      exists pre, post. split; [reflexivity|].
      split; [now apply String.eqb_eq|].
      eapply Forall_impl; [|exact Hpre]. cbn. intros c Hc.
      now apply String.eqb_neq.
    + eapply Forall_impl; [|exact H]. cbn. intros c Hc.
      now apply String.eqb_neq.
  - pose proof (find_first_split
                  (fun child => existsb (String.eqb (Node_type child)) l)
                  nodes) as H.
    destruct (find _ nodes) as [n|].
    + destruct H as (pre & post & -> & Hn & Hpre).
      exists pre, post. split; [reflexivity|].
      split; [now apply existsb_eqb_In|].
      eapply Forall_impl; [|exact Hpre]. cbn. intros c Hc Hin.
      apply existsb_eqb_In in Hin. congruence.
    + eapply Forall_impl; [|exact H]. cbn. intros c Hc Hin.
      apply existsb_eqb_In in Hin. congruence.
Qed.

(** X2. [find_first_by_field_name] with a list of field names returns the
    child of the first name, in the order of the list, under which the node
    has a child, and [None] exactly when it has a child under none of them;
    with one name it is the lookup of that name. *)
Theorem find_first_by_field_name_first
        (child_by_field_name : Node -> string -> option Node)
        (node : Node) (field_names : list string) :
  (forall field_name,
      find_first_by_field_name child_by_field_name node (OneType field_name)
      = child_by_field_name node field_name)
  /\ match find_first_by_field_name child_by_field_name node
                                    (TypeList field_names) with
     | Some result =>
         exists pre field_name post,
           field_names = (pre ++ field_name :: post)%list
           /\ child_by_field_name node field_name = Some result
           /\ Forall (fun f => child_by_field_name node f = None) pre
     | None => Forall (fun f => child_by_field_name node f = None) field_names
     end.
Proof.
  split; [reflexivity|]. cbn [find_first_by_field_name].
  induction field_names as [|f rest IH]; [constructor|].
  destruct (child_by_field_name node f) as [r|] eqn:E.
  - exists [], f, rest. repeat split; [exact E | constructor].
  - match goal with
    | |- match ?x with _ => _ end =>
        match type of IH with match ?y with _ => _ end => change x with y end
    end.
    destruct ((fix over (names : list string) : option Node := _) rest)
      as [r|].
    + destruct IH as (pre & g & post & -> & Hg & Hpre).
      exists (f :: pre), g, post. repeat split; [exact Hg | now constructor].
    + now constructor.
Qed.

(* ------------------------------------------------------------------ *)
(** * Further properties: renderings and files to change *)

(** X3. The rendering of an [IdentifierFromFile] never shows its where
    clause: the identifier type in lower case is followed by the literal
    text [(self.where_clause)], whatever the where clause holds. *)
Theorem identifier_rendering_ignores_where (i : IdentifierFromFile) :
  (forall w,
      IdentifierFromFile_str
        {| identifier_file_path := identifier_file_path i;
           where_clause := w;
           identifier_type := identifier_type i;
           offset := offset i |}
      = IdentifierFromFile_str i)
  /\ exists rest,
       IdentifierFromFile_str i
       = Py.lower (identifier_type i) ++ " (self.where_clause)" ++ rest.
Proof.
  split; [reflexivity|]. unfold IdentifierFromFile_str.
  destruct (offset i) as [n|]; eexists; rewrite !append_assoc; reflexivity.
Qed.

(** X4. Every command of the four classes the parser builds
    ([CreateCommand], [RmFileCommand], [MvFileCommand], [UpdateCommand])
    changes at least one file and at most two; the first entry of
    [files_to_change] is always a path as a [str], that of the command's own
    file. *)
Theorem files_to_change_shape (c : Command) :
  exists rest,
    files_to_change c
    = ItemStr (match c with
               | CreateCommand _ p _ | RmFileCommand _ p
               | MvFileCommand _ p _ => p
               | UpdateCommand _ target _ _ => target_file_path target
               end) :: rest
    /\ List.length rest <= 1.
Proof.
  destruct c as [t p ct|t p|t p q|t target action ct]; cbn.
  - exists []. split; [reflexivity | cbn; lia].
  - exists []. split; [reflexivity | cbn; lia].
  - eexists. split; [reflexivity | cbn; lia].
  - destruct action as [a|a|a|a]; try (exists []; split; [reflexivity|cbn; lia]).
    destruct (to_other_file a); eexists; (split; [reflexivity | cbn; lia]).
Qed.

(* ------------------------------------------------------------------ *)
(** * Further properties: decoding *)

(** X5. [parse_string] never fails on a node that is not a [string]
    wrapper.  A [string] wrapper decodes as its first named child does,
    and fails with an [IndexError] when it has none; the unwrapping is done
    once: a first named child that is again a [string] wrapper yields its
    own text unchanged. *)
Theorem parse_string_unwraps_once (n : Node) :
  (Py.casefold (Node_type n) <> "string" ->
   exists s, parse_string (Some n) = Ok s)
  /\ (Py.casefold (Node_type n) = "string" ->
      named_children n = [] ->
      parse_string (Some n) = Raise (IndexError "list index out of range"))
  /\ (forall c rest,
         Py.casefold (Node_type n) = "string" ->
         named_children n = c :: rest ->
         Py.casefold (Node_type c) <> "string" ->
         parse_string (Some n) = parse_string (Some c))
  /\ (forall c rest,
         Py.casefold (Node_type n) = "string" ->
         named_children n = c :: rest ->
         Py.casefold (Node_type c) = "string" ->
         parse_string (Some n) = Ok (decode (text c))).
Proof.
  unfold parse_string. cbn [getattr_of bind].
  split; [|split; [|split]].
  - intros H. apply String.eqb_neq in H. rewrite H. cbn [bind].
    repeat match goal with
           | |- context [if ?b then _ else _] => destruct b
           end; eexists; reflexivity.
  - intros H Hnone. rewrite H, Hnone. reflexivity.
  - intros c rest H Hc Hnot. rewrite H, Hc.
    change (String.eqb "string" "string") with true. cbv iota.
    change (list_index (c :: rest) 0) with (Ok c). cbn [bind].
    apply String.eqb_neq in Hnot. rewrite Hnot. reflexivity.
  - intros c rest H Hc Hstr. rewrite H, Hc.
    change (String.eqb "string" "string") with true. cbv iota.
    change (list_index (c :: rest) 0) with (Ok c). cbn [bind].
    rewrite Hstr. reflexivity.
Qed.

Lemma parse_string_unwraps_once_witness :
  parse_string (Some (string_node "raw_string" "'abc'"))
  = parse_string (Some (leaf "raw_string" "'abc'"))
  /\ parse_string (Some (inner "string" [token "quote"]))
     = Raise (IndexError "list index out of range")
  /\ parse_string (Some (inner "STRING" [string_node "raw_string" "'abc'"]))
     = Ok "".
Proof.
  split; [|split].
  - refine (proj1 (proj2 (proj2 (parse_string_unwraps_once
                                   (string_node "raw_string" "'abc'"))))
                  _ [] eq_refl eq_refl _).
    discriminate.
  - exact (proj1 (proj2 (parse_string_unwraps_once
                           (inner "string" [token "quote"])))
                 eq_refl eq_refl).
  - exact (proj2 (proj2 (proj2 (parse_string_unwraps_once
                                  (inner "STRING"
                                         [string_node "raw_string" "'abc'"]))))
                 _ [] eq_refl eq_refl eq_refl).
Defined.

Lemma str_length_app (a b : string) :
  String.length (a ++ b) = String.length a + String.length b.
Proof. induction a as [|c a IH]; cbn; [reflexivity | now rewrite IH]. Qed.

Lemma prefix_app (p s : string) : String.prefix p (p ++ s) = true.
Proof.
  induction p as [|c p IH]; cbn; [now destruct s|].
  destruct (ascii_dec c c); [exact IH | contradiction].
Qed.

Lemma substring_skip (p s : string) (m : nat) :
  String.substring (String.length p) m (p ++ s) = String.substring 0 m s.
Proof. induction p as [|c p IH]; cbn; [reflexivity | exact IH]. Qed.

Lemma substring_all (s : string) :
  String.substring 0 (String.length s) s = s.
Proof. induction s as [|c s IH]; cbn; [reflexivity | now rewrite IH]. Qed.

Lemma substring_take (s p : string) :
  String.substring 0 (String.length s) (s ++ p) = s.
Proof.
  induction s as [|c s IH]; cbn; [now destruct p | now rewrite IH].
Qed.

Lemma removeprefix_app (p s : string) : Py.removeprefix (p ++ s) p = s.
Proof.
  unfold Py.removeprefix, Py.startswith. rewrite prefix_app, str_length_app.
  replace (String.length p + String.length s - String.length p)
    with (String.length s) by lia.
  now rewrite substring_skip, substring_all.
Qed.

Lemma endswith_app (s p q : string) :
  String.length p = String.length q ->
  Py.endswith (s ++ p) q = String.eqb p q.
Proof.
  intros H. unfold Py.endswith. rewrite str_length_app, <- H.
  replace (String.length s + String.length p - String.length p)
    with (String.length s) by lia.
  rewrite substring_skip, substring_all.
  replace (String.length p <=? String.length s + String.length p) with true
    by (symmetry; apply Nat.leb_le; lia).
  reflexivity.
Qed.

Lemma removesuffix_app (s p : string) :
  p <> "" -> Py.removesuffix (s ++ p) p = s.
Proof.
  intros H. unfold Py.removesuffix.
  rewrite (endswith_app s p p eq_refl), String.eqb_refl.
  apply String.eqb_neq in H. rewrite H. cbn [negb andb].
  rewrite str_length_app.
  replace (String.length s + String.length p - String.length p)
    with (String.length s) by lia.
  apply substring_take.
Qed.

Lemma startswith_squotes_appended (body : string) :
  Py.startswith (body ++ triple_squote) triple_dquote
  = Py.startswith body triple_dquote.
Proof.
  unfold Py.startswith, triple_dquote, triple_squote.
  destruct body as [|a [|b [|c r]]]; cbn [append String.prefix];
    repeat match goal with
           | |- context [ascii_dec ?x ?y] => is_var y; destruct (ascii_dec x y)
           end;
    try reflexivity.
  now destruct r.
Qed.

(** X6. Decoding a [multi_line_string] is the inverse of delimiting a text
    with triple quotes: between triple double quotes every text is
    recovered; between triple single quotes a text is recovered when it
    neither starts nor ends with a triple double quote. *)
Theorem multi_line_string_round_trip (n : Node) (body : string) :
  Py.casefold (Node_type n) = "multi_line_string" ->
  (decode (text n) = triple_dquote ++ body ++ triple_dquote ->
   parse_string (Some n) = Ok body)
  /\ (decode (text n) = triple_squote ++ body ++ triple_squote ->
      Py.startswith body triple_dquote = false ->
      Py.endswith body triple_dquote = false ->
      parse_string (Some n) = Ok body).
Proof.
  intros T.
  assert (Hunfold :
            parse_string (Some n)
            = Ok (Py.removesuffix
                    (Py.removesuffix
                       (Py.removeprefix
                          (Py.removeprefix (decode (text n)) triple_squote)
                          triple_dquote)
                       triple_squote)
                    triple_dquote)).
  { unfold parse_string. cbn [getattr_of bind]. rewrite T.
    change (String.eqb "multi_line_string" "string") with false.
    cbn [bind]. rewrite T. reflexivity. }
  rewrite Hunfold. split.
  - intros ->. f_equal.
    replace (Py.removeprefix (triple_dquote ++ body ++ triple_dquote)
                             triple_squote)
      with (triple_dquote ++ body ++ triple_dquote) by reflexivity.
    rewrite removeprefix_app.
    replace (Py.removesuffix (body ++ triple_dquote) triple_squote)
      with (body ++ triple_dquote).
    + apply removesuffix_app. discriminate.
    + unfold Py.removesuffix.
      now rewrite (endswith_app body triple_dquote triple_squote eq_refl).
  - intros -> Hs He. f_equal.
    rewrite removeprefix_app.
    replace (Py.removeprefix (body ++ triple_squote) triple_dquote)
      with (body ++ triple_squote).
    + rewrite removesuffix_app by discriminate.
      unfold Py.removesuffix. now rewrite He.
    + unfold Py.removeprefix.
      now rewrite startswith_squotes_appended, Hs.
Qed.

Lemma multi_line_string_round_trip_witness :
  parse_string (Some (multi_line_token "'''it's'''")) = Ok "it's".
Proof.
  exact (proj2 (multi_line_string_round_trip
                  (multi_line_token "'''it's'''") "it's" eq_refl)
               eq_refl eq_refl eq_refl).
Defined.

Lemma lstrip_by_begins (p : ascii -> bool) (s : string) :
  begins_by p (Py.lstrip_by p s) = false.
Proof.
  induction s as [|c s IH]; [reflexivity|]. cbn [Py.lstrip_by].
  destruct (p c) eqn:E; [exact IH | exact E].
Qed.

Lemma lstrip_by_id (p : ascii -> bool) (s : string) :
  begins_by p s = false -> Py.lstrip_by p s = s.
Proof.
  destruct s as [|c s]; [reflexivity|]. cbn. now intros ->.
Qed.

Lemma lstrip_by_run (p : ascii -> bool) (run s : string) :
  all_by p run = true -> Py.lstrip_by p (run ++ s) = Py.lstrip_by p s.
Proof.
  induction run as [|c run IH]; [reflexivity|]. cbn [all_by append].
  intros H. apply andb_true_iff in H as [Hc Hrun].
  cbn [Py.lstrip_by]. rewrite Hc. now apply IH.
Qed.

Lemma rstrip_by_keeps_begin (p : ascii -> bool) (s : string) :
  begins_by p s = false -> begins_by p (Py.rstrip_by p s) = false.
Proof.
  destruct s as [|c s]; [reflexivity|]. cbn [begins_by Py.rstrip_by].
  intros E. rewrite E. now destruct (Py.rstrip_by p s).
Qed.

Lemma rstrip_by_ends (p : ascii -> bool) (s : string) :
  ends_by p (Py.rstrip_by p s) = false.
Proof.
  induction s as [|c s IH]; [reflexivity|]. cbn [Py.rstrip_by].
  destruct (Py.rstrip_by p s) as [|d r] eqn:R.
  - destruct (p c) eqn:E; [reflexivity | exact E].
  - exact IH.
Qed.

Lemma rstrip_by_id (p : ascii -> bool) (s : string) :
  ends_by p s = false -> Py.rstrip_by p s = s.
Proof.
  induction s as [|c s IH]; [reflexivity|]. intros E.
  destruct s as [|d r].
  - cbn [ends_by] in E. cbn [Py.rstrip_by]. now rewrite E.
  - cbn [ends_by] in E. specialize (IH E).
    change (Py.rstrip_by p (String c (String d r)))
      with (match Py.rstrip_by p (String d r) with
            | "" => if p c then "" else String c ""
            | String a r0 => String c (String a r0)
            end).
    now rewrite IH.
Qed.

Lemma rstrip_by_run (p : ascii -> bool) (s run : string) :
  all_by p run = true -> Py.rstrip_by p (s ++ run) = Py.rstrip_by p s.
Proof.
  intros Hrun.
  assert (Hnil : Py.rstrip_by p run = "").
  { induction run as [|c run IH]; [reflexivity|]. cbn [all_by] in Hrun.
    apply andb_true_iff in Hrun as [Hc Hrest].
    cbn [Py.rstrip_by]. now rewrite (IH Hrest), Hc. }
  induction s as [|c s IH]; [exact Hnil|].
  cbn [append Py.rstrip_by]. now rewrite IH.
Qed.

(** What [strip] leaves of a text between two runs of characters to strip,
    when the text itself neither begins nor ends with such a character. *)
Lemma strip_by_delimited (p : ascii -> bool) (opening body closing : string) :
  all_by p opening = true ->
  all_by p closing = true ->
  begins_by p body = false ->
  ends_by p body = false ->
  Py.strip_by p (opening ++ body ++ closing) = body.
Proof.
  intros Ho Hc Hb He. unfold Py.strip_by.
  rewrite (lstrip_by_run p opening _ Ho).
  destruct body as [|c r].
  - cbn [append]. rewrite <- (append_empty_r closing) at 1.
    rewrite (lstrip_by_run p closing "" Hc). reflexivity.
  - rewrite (lstrip_by_id p (String c r ++ closing)) by exact Hb.
    rewrite (rstrip_by_run p _ closing Hc). now apply rstrip_by_id.
Qed.

Lemma strip_by_id (p : ascii -> bool) (s : string) :
  begins_by p s = false -> ends_by p s = false -> Py.strip_by p s = s.
Proof.
  intros Hb He. unfold Py.strip_by.
  rewrite (lstrip_by_id p s Hb). now apply rstrip_by_id.
Qed.

Lemma strip_by_ends_clean (p : ascii -> bool) (s : string) :
  begins_by p (Py.strip_by p s) = false
  /\ ends_by p (Py.strip_by p s) = false.
Proof.
  unfold Py.strip_by. split.
  - apply rstrip_by_keeps_begin, lstrip_by_begins.
  - apply rstrip_by_ends.
Qed.

(** X7. [parse_multiline_string] never fails and removes whole runs of
    quote characters, not one delimiter: what it returns never begins or
    ends with a double quote.  It recovers a text delimited by triple single
    quotes when the text neither begins nor ends with a single or a double
    quote, and a text delimited by triple double quotes when the text
    neither begins nor ends with a double quote. *)
Theorem parse_multiline_string_strips (node : Node) :
  exists s,
    parse_multiline_string node = Ok s
    /\ begins_by is_dquote s = false
    /\ ends_by is_dquote s = false
    /\ (forall body,
           decode (text node) = triple_squote ++ body ++ triple_squote ->
           begins_by is_squote body = false ->
           ends_by is_squote body = false ->
           begins_by is_dquote body = false ->
           ends_by is_dquote body = false ->
           s = body)
    /\ (forall body,
           decode (text node) = triple_dquote ++ body ++ triple_dquote ->
           begins_by is_dquote body = false ->
           ends_by is_dquote body = false ->
           s = body).
Proof.
  eexists. split; [reflexivity|].
  change (Py.strip (Py.strip (decode (text node)) triple_squote) triple_dquote)
    with (Py.strip_by is_dquote (Py.strip_by is_squote (decode (text node)))).
  split; [apply strip_by_ends_clean|]. split; [apply strip_by_ends_clean|].
  split.
  - intros body -> Hbs Hes Hbd Hed.
    rewrite (strip_by_delimited is_squote triple_squote body triple_squote
                                eq_refl eq_refl Hbs Hes).
    now apply strip_by_id.
  - intros body -> Hbd Hed.
    replace (Py.strip_by is_squote (triple_dquote ++ body ++ triple_dquote))
      with (triple_dquote ++ body ++ triple_dquote).
    + exact (strip_by_delimited is_dquote triple_dquote body triple_dquote
                                eq_refl eq_refl Hbd Hed).
    + symmetry. apply strip_by_id; [reflexivity|].
      change (triple_dquote ++ body ++ triple_dquote)
        with (String Py.dquote
                (String Py.dquote (String Py.dquote (body ++ triple_dquote)))).
      cbn [ends_by].
      assert (H : forall s, ends_by is_squote (s ++ triple_dquote) = false).
      { induction s as [|c s IH]; [reflexivity|].
        cbn [append ends_by]. destruct (s ++ triple_dquote) eqn:E; [|exact IH].
        destruct s; discriminate E. }
      destruct (body ++ triple_dquote) eqn:E; [destruct body; discriminate E|].
      rewrite <- E. apply H.
Qed.

Lemma parse_multiline_string_strips_witness :
  parse_multiline_string (leaf "multiline_string" "'''a'b'''") = Ok "a'b".
Proof.
  destruct (parse_multiline_string_strips
              (leaf "multiline_string" "'''a'b'''"))
    as (s & Hs & _ & _ & Hbody & _).
  rewrite Hs. f_equal.
  exact (Hbody "a'b" eq_refl eq_refl eq_refl eq_refl eq_refl).
Defined.

(** X8. [parse_relative_indent_block] has two outcomes only: the empty text
    when the block holds no line with both an indent prefix and content, and
    the [TypeError] of stripping the bytes of the indent prefix with a [str]
    otherwise.  It never returns a text that is not empty. *)
Theorem relative_indent_block_outcomes (node : Node) :
  (filter is_decoded_line (children node) = [] ->
   parse_relative_indent_block node = Ok "")
  /\ (filter is_decoded_line (children node) <> [] ->
      parse_relative_indent_block node
      = Raise (TypeError "a bytes-like object is required, not 'str'"))
  /\ (forall s, parse_relative_indent_block node = Ok s -> s = "").
Proof.
  assert (Hnone : filter is_decoded_line (children node) = [] ->
                  parse_relative_indent_block node = Ok "").
  { intros H. unfold parse_relative_indent_block.
    now rewrite decoded_lines_only, H. }
  assert (Hsome : filter is_decoded_line (children node) <> [] ->
                  parse_relative_indent_block node
                  = Raise (TypeError
                             "a bytes-like object is required, not 'str'")).
  { intros H. unfold parse_relative_indent_block.
    rewrite decoded_lines_only.
    destruct (filter is_decoded_line (children node)) as [|c rest] eqn:F;
      [congruence|].
    assert (Hc : is_decoded_line c = true).
    { assert (Hin : In c (filter is_decoded_line (children node)))
        by (rewrite F; now left).
      now apply filter_In in Hin. }
    unfold is_decoded_line, has_indent_prefix, has_content in Hc.
    cbn [relative_indent_lines].
    destruct (String.eqb (Node_type c) "relative_indent_line");
      [|discriminate Hc].
    destruct (find_first_by_type (children c)
                                 (OneType "relative_indent_prefix"));
      [|discriminate Hc].
    destruct (find_first_by_type (children c) (OneType "match_any_char"));
      [|discriminate Hc].
    reflexivity. }
  split; [exact Hnone|]. split; [exact Hsome|].
  intros s Hs.
  destruct (filter is_decoded_line (children node)) as [|c rest] eqn:F.
  - rewrite (Hnone eq_refl) in Hs. now inversion Hs.
  - rewrite Hsome in Hs by discriminate. discriminate Hs.
Qed.

Lemma relative_indent_block_outcomes_witness :
  parse_relative_indent_block skipped_lines_block = Ok ""
  /\ parse_relative_indent_block def_foo_block
     = Raise (TypeError "a bytes-like object is required, not 'str'").
Proof.
  split.
  - exact (proj1 (relative_indent_block_outcomes skipped_lines_block)
                 eq_refl).
  - refine (proj1 (proj2 (relative_indent_block_outcomes def_foo_block)) _).
    discriminate.
Defined.

(* ------------------------------------------------------------------ *)
(** * Further properties: regions *)

(** [parse_region] as the source writes it: unwrap, build the region from
    the unwrapped node, qualify. *)
Lemma parse_region_equation (node : Node) :
  parse_region (Some node)
  = (unwrapped <- parse_region_unwrap node ;;
     res <- parse_region_dispatch (snd unwrapped) ;;
     parse_region_qualify (fst unwrapped) res).
Proof.
  unfold parse_region.
  destruct (node_height node) as [|d] eqn:Hd;
    [pose proof (node_height_positive node); lia|].
  cbn [parse_region_rec getattr_of bind].
  destruct (parse_region_unwrap node) as [[q n']|e] eqn:U; cbn [bind];
    [|reflexivity].
  apply parse_region_unwrap_height in U.
  unfold parse_region_dispatch, parse_segment. cbn [fst snd].
  rewrite (parse_segment_with_agree (parse_region_rec d) parse_region n').
  - reflexivity.
  - intros m Hm. apply parse_region_rec_enough. lia.
Qed.

Lemma parse_segment_with_is_segment
      (r : option Node -> result Region) (n : Node) (s : Region) :
  parse_segment_with r n = Ok s -> exists a b, s = RegionSegment a b.
Proof.
  unfold parse_segment_with.
  repeat match goal with
         | |- context [bind ?m _] =>
             destruct m; cbn [bind]; [|discriminate]
         end.
  intros H; inversion H. eexists _, _; reflexivity.
Qed.

Lemma parse_region_dispatch_plain (n : Node) (res : Region) :
  parse_region_dispatch n = Ok res ->
  forall m, res <> RegionRelativeMarker m.
Proof.
  unfold parse_region_dispatch.
  destruct (_ || _).
  - destruct (parse_marker n); cbn [bind]; [|discriminate].
    intros H; inversion H; discriminate.
  - destruct (String.eqb _ "segment").
    + intros H. apply parse_segment_with_is_segment in H as (a & b & ->).
      discriminate.
    + destruct (_ || _); [|discriminate].
      destruct (BodyOrWhole_of _); cbn [bind]; [|discriminate].
      intros H; inversion H; discriminate.
Qed.

Lemma parse_region_unwrap_qualifier (node n' : Node)
      (q : option RelativePositionType) :
  parse_region_unwrap node = Ok (q, n') ->
  ((exists q', q = Some q')
   <-> (Py.casefold (Node_type node) = "relpos_bai"
        \/ Py.casefold (Node_type node) = "relpos_beforeafter")).
Proof.
  unfold parse_region_unwrap.
  destruct (String.eqb_spec (Py.casefold (Node_type node))
                            "marker_or_segment") as [E1|N1].
  { destruct (list_index _ _); cbn [bind]; [|discriminate].
    intros H; inversion H; subst. rewrite E1.
    split; [intros [q' Hq]; discriminate | intros [F|F]; discriminate]. }
  destruct (String.eqb_spec (Py.casefold (Node_type node)) "region_field")
    as [E2|N2].
  { destruct (list_index _ _) as [n1|]; cbn [bind]; [|discriminate].
    rewrite E2.
    destruct (String.eqb _ _);
      [destruct (list_index _ _); cbn [bind]; [|discriminate]|];
      intros H; inversion H; subst;
      (split; [intros [q' Hq]; discriminate | intros [F|F]; discriminate]). }
  destruct (String.eqb_spec (Py.casefold (Node_type node)) "relpos_bai")
    as [E3|N3].
  { destruct (list_index _ _) as [n1|]; cbn [bind]; [|discriminate].
    destruct (qualifier_of_first_child n1); cbn [bind]; [|discriminate].
    destruct (list_index _ _); cbn [bind]; [|discriminate].
    intros H; inversion H; subst.
    split; [now left | intros _; eexists; reflexivity]. }
  destruct (String.eqb_spec (Py.casefold (Node_type node))
                            "relpos_beforeafter") as [E4|N4].
  { destruct (qualifier_of_first_child node); cbn [bind]; [|discriminate].
    destruct (list_index _ _); cbn [bind]; [|discriminate].
    intros H; inversion H; subst.
    split; [now right | intros _; eexists; reflexivity]. }
  destruct (String.eqb _ "relpos_at");
    [destruct (list_index _ _); cbn [bind]; [|discriminate]|];
    intros H; inversion H; subst;
    (split; [intros [q' Hq]; discriminate | intros [F|F]; contradiction]).
Qed.

(** X9. What [parse_region] returns is a [RelativeMarker] exactly when the
    node is a [relpos_bai] or a [relpos_beforeafter] (compared without
    case): under every other node, a [relpos_at] among them, a marker comes
    out as a plain [Marker], without qualifier. *)
Theorem relative_marker_iff_qualified (node : Node) (r : Region) :
  parse_region (Some node) = Ok r ->
  ((exists m, r = RegionRelativeMarker m)
   <-> (Py.casefold (Node_type node) = "relpos_bai"
        \/ Py.casefold (Node_type node) = "relpos_beforeafter")).
Proof.
  rewrite parse_region_equation.
  destruct (parse_region_unwrap node) as [[q n']|] eqn:U; cbn [bind fst snd];
    [|discriminate].
  destruct (parse_region_dispatch n') as [res|] eqn:D; cbn [bind];
    [|discriminate].
  intros Q. rewrite <- (parse_region_unwrap_qualifier node n' q U).
  destruct q as [q'|].
  - destruct (parse_region_qualified q' res r Q) as [m ->].
    split; intros _; eexists; reflexivity.
  - cbn in Q. inversion Q; subst.
    split; [intros [m Hm] | intros [q' Hq]; discriminate].
    exfalso. exact (parse_region_dispatch_plain n' r D m Hm).
Qed.

Lemma relative_marker_iff_qualified_witness :
  (exists m,
      RegionRelativeMarker (mkRelativeMarker BEFORE (mkMarker LINE "9" None))
      = RegionRelativeMarker m)
  /\ ~ (exists m, RegionMarker (mkMarker LINE "1" None) = RegionRelativeMarker m).
Proof.
  split.
  - apply (proj2 (relative_marker_iff_qualified
                    (inner "relpos_beforeafter"
                           [token "BEFORE"; line_marker_node "'9'"])
                    _ eq_refl)).
    now right.
  - intros H.
    destruct (proj1 (relative_marker_iff_qualified
                       (inner "relpos_at" [token "AT"; line_marker_node "'1'"])
                       _ eq_refl) H) as [F|F]; discriminate F.
Defined.

(** X10. A relative position qualifies markers only: when the node under
    the qualifier is a segment that parses, or [BODY] or [WHOLE],
    [parse_region] raises the [AttributeError] of reading the attribute
    [type] of the region it built. *)
Theorem qualifier_needs_marker (node n' : Node) (q : RelativePositionType) :
  parse_region_unwrap node = Ok (Some q, n') ->
  (forall s,
      Py.casefold (Node_type n') = "segment" ->
      parse_segment n' = Ok s ->
      parse_region (Some node)
      = Raise (AttributeError "'Segment' object has no attribute 'type'"))
  /\ (Py.casefold (Node_type n') = "body"
      \/ Py.casefold (Node_type n') = "whole" ->
      parse_region (Some node)
      = Raise (AttributeError "'BodyOrWhole' object has no attribute 'type'")).
Proof.
  intros U. rewrite parse_region_equation, U. cbn [bind fst snd].
  unfold parse_region_dispatch. split.
  - intros s T Hs. rewrite T.
    change (String.eqb "segment" "marker" || String.eqb "segment" "linemarker")
      with false.
    change (String.eqb "segment" "segment") with true. cbv iota.
    rewrite Hs. cbn [bind].
    destruct (parse_segment_with_is_segment _ _ _ Hs) as (a & b & ->).
    reflexivity.
  - intros [T|T]; rewrite T; reflexivity.
Qed.

Lemma qualifier_needs_marker_witness :
  parse_region (Some after_segment_node)
  = Raise (AttributeError "'Segment' object has no attribute 'type'")
  /\ parse_region (Some after_body_node)
     = Raise (AttributeError "'BodyOrWhole' object has no attribute 'type'").
Proof.
  split.
  - exact (proj1 (qualifier_needs_marker after_segment_node segment_node AFTER
                                         eq_refl)
                 _ eq_refl eq_refl).
  - exact (proj2 (qualifier_needs_marker after_body_node (leaf "BODY" "BODY")
                                         AFTER eq_refl)
                 (or_introl eq_refl)).
Defined.

(* ------------------------------------------------------------------ *)
(** * Further properties: commands *)

(** X11. The attribute [type] of a command that [parse_command] builds is
    the type of its node without the ending [_command], and it is one of
    [create], [rm_file], [mv_file] and [update]. *)
Theorem parse_command_type_tag (node : Node) (c : Command) :
  parse_command node = Ok c ->
  Node_type node = Command_type c ++ "_command"
  /\ In (Command_type c) ["create"; "rm_file"; "mv_file"; "update"].
Proof.
  unfold parse_command.
  destruct (String.eqb_spec (Node_type node) "create_command") as [E|_].
  { unfold parse_create_command.
    destruct (parse_singlefile_clause _); cbn [bind]; [|discriminate].
    destruct (parse_content_clause _); cbn [bind]; [|discriminate].
    intros H; inversion H; subst. cbn. rewrite E. auto. }
  destruct (String.eqb_spec (Node_type node) "rm_file_command") as [E|_].
  { unfold parse_rm_file_command.
    destruct (parse_singlefile_clause _); cbn [bind]; [|discriminate].
    intros H; inversion H; subst. cbn. rewrite E. auto. }
  destruct (String.eqb_spec (Node_type node) "mv_file_command") as [E|_].
  { unfold parse_mv_file_command.
    destruct (parse_singlefile_clause _); cbn [bind]; [|discriminate].
    destruct (parse_to_value_clause _); cbn [bind]; [|discriminate].
    intros H; inversion H; subst. cbn. rewrite E. auto. }
  destruct (String.eqb_spec (Node_type node) "update_command") as [E|_];
    [|discriminate].
  unfold parse_update_command.
  destruct (parse_update_target _); cbn [bind]; [|discriminate].
  destruct (parse_update_action _); cbn [bind]; [|discriminate].
  destruct (parse_update_content _); cbn [bind]; [|discriminate].
  intros H; inversion H; subst. cbn. rewrite E. auto 6.
Qed.

Lemma parse_command_type_tag_witness :
  Node_type rm_file_node = "rm_file" ++ "_command".
Proof.
  exact (proj1 (parse_command_type_tag rm_file_node
                                       (RmFileCommand "rm_file" "a.py")
                                       eq_refl)).
Defined.

Lemma parse_move_clause_same_file (node : Node) (mc : MoveClause) :
  parse_move_clause node = Ok mc -> to_other_file mc = None.
Proof.
  unfold parse_move_clause.
  repeat match goal with
         | |- context [bind ?m _] =>
             destruct m; cbn [bind]; [|discriminate]
         end.
  intros H; inversion H; reflexivity.
Qed.

Lemma parse_update_action_same_file (node : Node) (mc : MoveClause) :
  parse_update_action node = Ok (Move mc) -> to_other_file mc = None.
Proof.
  unfold parse_update_action.
  destruct (find_first_by_type _ _) as [action_node|]; [|discriminate].
  destruct (_ || _).
  { destruct (parse_delete_clause _); cbn [bind]; discriminate. }
  destruct (_ || _).
  { destruct (parse_move_clause action_node) as [m|] eqn:M; cbn [bind];
      [|discriminate].
    intros H; inversion H; subst.
    exact (parse_move_clause_same_file action_node mc M). }
  destruct (String.eqb _ _).
  { destruct (parse_insert_clause _); cbn [bind]; discriminate. }
  destruct (_ || _); [|discriminate].
  destruct (parse_replace_clause _); cbn [bind]; discriminate.
Qed.

(** X12. For a command built by [parse_command], [files_to_change] holds
    paths as [str] only: two for a file move, one for every other command.
    The builder never sets [to_other_file], so an update never lists a
    second file. *)
Theorem built_command_files (node : Node) (c : Command) :
  parse_command node = Ok c ->
  exists paths,
    files_to_change c = map ItemStr paths
    /\ List.length paths
       = if String.eqb (Node_type node) "mv_file_command" then 2 else 1.
Proof.
  unfold parse_command.
  destruct (String.eqb_spec (Node_type node) "create_command") as [E|_].
  { unfold parse_create_command.
    destruct (parse_singlefile_clause _) as [f|]; cbn [bind]; [|discriminate].
    destruct (parse_content_clause _); cbn [bind]; [|discriminate].
    intros H; inversion H; subst. exists [file_path f].
    rewrite E. split; reflexivity. }
  destruct (String.eqb_spec (Node_type node) "rm_file_command") as [E|_].
  { unfold parse_rm_file_command.
    destruct (parse_singlefile_clause _) as [f|]; cbn [bind]; [|discriminate].
    intros H; inversion H; subst. exists [file_path f].
    rewrite E. split; reflexivity. }
  destruct (String.eqb_spec (Node_type node) "mv_file_command") as [E|N].
  { unfold parse_mv_file_command.
    destruct (parse_singlefile_clause _) as [f|]; cbn [bind]; [|discriminate].
    destruct (parse_to_value_clause _) as [t|]; cbn [bind]; [|discriminate].
    intros H; inversion H; subst. exists [file_path f; t].
    split; reflexivity. }
  destruct (String.eqb_spec (Node_type node) "update_command") as [E|_];
    [|discriminate].
  unfold parse_update_command.
  destruct (parse_update_target _) as [target|]; cbn [bind]; [|discriminate].
  destruct (parse_update_action _) as [action|] eqn:A; cbn [bind];
    [|discriminate].
  destruct (parse_update_content _); cbn [bind]; [|discriminate].
  intros H; inversion H; subst. exists [target_file_path target].
  split; [|reflexivity].
  apply files_to_change_update_same_file.
  intros mc ->. exact (parse_update_action_same_file node mc A).
Qed.

Lemma built_command_files_witness :
  exists paths,
    files_to_change (CreateCommand "create" "a.py" "x") = map ItemStr paths
    /\ List.length paths = 1.
Proof.
  exact (built_command_files create_node (CreateCommand "create" "a.py" "x")
                             eq_refl).
Defined.

(** X13. An update that is built has content exactly when its node has a
    [content_clause] child (named or not), and the content is then the
    decoded first such clause. *)
Theorem update_content_iff_clause (node : Node) (c : Command) :
  parse_update_command node = Ok c ->
  exists target action content,
    c = UpdateCommand "update" target action content
    /\ match find_first_by_type (children node) (OneType "content_clause") with
       | None => content = None
       | Some clause =>
           exists s, content = Some s
                     /\ parse_content_clause (Some clause) = Ok s
       end.
Proof.
  unfold parse_update_command.
  destruct (parse_update_target _) as [target|]; cbn [bind]; [|discriminate].
  destruct (parse_update_action _) as [action|]; cbn [bind]; [|discriminate].
  unfold parse_update_content.
  destruct (find_first_by_type (children node) (OneType "content_clause"))
    as [clause|].
  - destruct (parse_content_clause (Some clause)) as [s|] eqn:P; cbn [bind];
      [|discriminate].
    intros H; inversion H; subst. eexists _, _, _. split; [reflexivity|].
    exists s. split; reflexivity.
  - cbn [bind]. intros H; inversion H; subst.
    eexists _, _, _. split; reflexivity.
Qed.

Lemma update_content_iff_clause_witness :
  exists target action content,
    UpdateCommand "update" (OfSingleFile (mkSingleFileClause "a.py"))
      (Delete (mkDeleteClause (RegionMarker (mkMarker LINE "3" None))))
      (Some "x")
    = UpdateCommand "update" target action content
    /\ match find_first_by_type (children update_with_content_node)
                                (OneType "content_clause") with
       | None => content = None
       | Some clause =>
           exists s, content = Some s
                     /\ parse_content_clause (Some clause) = Ok s
       end.
Proof.
  exact (update_content_iff_clause update_with_content_node _ eq_refl).
Defined.

(** X14. A create, remove-file or move-file node without a
    [singlefile_clause] child is refused by [parse_command] with the
    [ValueError] that a singlefile_clause node was expected, whatever else
    the node holds. *)
Theorem file_command_needs_file (node : Node) :
  find_first_by_type (children node) (OneType "singlefile_clause") = None ->
  In (Node_type node)
     ["create_command"; "rm_file_command"; "mv_file_command"] ->
  parse_command node = Raise (ValueError "Expected singlefile_clause node").
Proof.
  intros F [T|[T|[T|[]]]]; unfold parse_command; rewrite <- T;
    cbn [String.eqb Ascii.eqb Bool.eqb];
    [unfold parse_create_command
    |unfold parse_rm_file_command
    |unfold parse_mv_file_command];
    now rewrite F.
Qed.

Lemma file_command_needs_file_witness :
  parse_command rm_without_file_node
  = Raise (ValueError "Expected singlefile_clause node").
Proof.
  apply file_command_needs_file; [reflexivity | right; now left].
Defined.

(** X15. [parse_identifier_from_file] needs a child, a [singlefile_clause]
    and a [where_clause]: without any child it raises an [IndexError];
    with children but without one of the two clauses among the named
    children it raises the [ValueError] of an invalid clause, before it
    parses anything. *)
Theorem identifier_needs_file_and_where (node : Node) :
  (children node = [] ->
   parse_identifier_from_file node
   = Raise (IndexError "list index out of range"))
  /\ (children node <> [] ->
      find_first_by_type (named_children node) (OneType "singlefile_clause")
      = None
      \/ find_first_by_type (named_children node) (OneType "where_clause")
         = None ->
      parse_identifier_from_file node
      = Raise (ValueError "Invalid identifier_from_file clause")).
Proof.
  unfold parse_identifier_from_file. split.
  - intros ->. reflexivity.
  - intros Hc H. destruct (children node) as [|first rest] eqn:C;
      [congruence|].
    change (list_index (first :: rest) 0) with (Ok first). cbn [bind].
    destruct H as [H|H]; rewrite H; [reflexivity|].
    now destruct (find_first_by_type _ (OneType "singlefile_clause")).
Qed.

Lemma identifier_needs_file_and_where_witness :
  parse_identifier_from_file identifier_without_where_node
  = Raise (ValueError "Invalid identifier_from_file clause").
Proof.
  apply (proj2 (identifier_needs_file_and_where
                  identifier_without_where_node)).
  - discriminate.
  - now right.
Defined.

(* ------------------------------------------------------------------ *)
(** * Further properties: the facade *)

Lemma loop_commands_only (nodes : list Node) :
  forall st1 st2,
    commands st1 = commands st2 ->
    ordinal st1 = ordinal st2 ->
    same_outcome (parse_script_loop nodes st1)
                 (parse_script_loop (filter is_command_node nodes) st2).
Proof.
  induction nodes as [|child rest IH]; intros st1 st2 Hc Ho.
  - cbn. repeat split; assumption.
  - cbn [filter]. destruct (is_command_node child) eqn:Hcmd.
    + destruct (parse_command child) as [c|e] eqn:P.
      * rewrite (loop_appends child rest st1 c Hcmd P),
          (loop_appends child _ st2 c Hcmd P).
        apply IH; cbn [commands ordinal]; congruence.
      * rewrite (loop_raises child rest st1 e Hcmd P),
          (loop_raises child _ st2 e Hcmd P).
        repeat split; assumption.
    + destruct (loop_skips child rest st1 Hcmd) as [out ->].
      apply IH; assumption.
Qed.

(** X16. Top-level nodes that are no command nodes (comments, separators,
    anything else) have no influence on what [parse_script] returns: without
    collected errors the result is that of the tree whose root holds the
    command nodes only. *)
Theorem non_commands_ignored (self self' : CEDARScriptASTParser)
        (code_text : string) (root root' : Node) :
  parser_parse self (Bytes code_text) = Ok root ->
  parser_parse self' (Bytes code_text) = Ok root' ->
  _collect_parse_errors None root code_text 1 = [] ->
  _collect_parse_errors None root' code_text 1 = [] ->
  children root' = filter is_command_node (children root) ->
  parse_script self code_text = parse_script self' code_text.
Proof.
  intros P P' E E' C. unfold parse_script.
  rewrite (parse_script_try_no_errors self code_text root P E),
    (parse_script_try_no_errors self' code_text root' P' E'), C.
  destruct (loop_commands_only (children root) initial_state initial_state
                               eq_refl eq_refl) as (Hf & Hc & Ho).
  destruct (parse_script_loop (children root) initial_state) as [[e|] st];
    destruct (parse_script_loop (filter is_command_node (children root))
                                initial_state) as [[e'|] st'];
    cbn [fst snd] in Hf, Hc, Ho; try discriminate Hf.
  - inversion Hf; subst. unfold parse_script_except. now rewrite Ho.
  - now rewrite Hc.
Qed.

Lemma non_commands_ignored_witness :
  parse_script (parser_returning script_root) ""
  = parse_script (parser_returning commands_only_root) "".
Proof.
  exact (non_commands_ignored (parser_returning script_root)
                              (parser_returning commands_only_root)
                              "" script_root commands_only_root
                              eq_refl eq_refl eq_refl eq_refl eq_refl).
Defined.

(** X17. A script without any top-level command node (the empty script, or
    comments only) and without collected errors gives no command and no
    diagnostic. *)
Theorem no_command_no_result (self : CEDARScriptASTParser)
        (code_text : string) (root : Node) :
  parser_parse self (Bytes code_text) = Ok root ->
  _collect_parse_errors None root code_text 1 = [] ->
  count_command_nodes (children root) = 0 ->
  parse_script self code_text = Ok ([], []).
Proof.
  intros P E C. unfold parse_script.
  rewrite (parse_script_try_no_errors self code_text root P E).
  unfold count_command_nodes in C. apply length_zero_iff_nil in C.
  assert (Hall : all_commands_build (children root)).
  { intros n Hn Hcmd.
    assert (Hin : In n (filter is_command_node (children root)))
      by (apply filter_In; now split).
    rewrite C in Hin. contradiction. }
  destruct (loop_builds_all (children root) Hall initial_state)
    as (cmds & out & -> & Hall2).
  rewrite C in Hall2. inversion Hall2; subst. reflexivity.
Qed.

Lemma no_command_no_result_witness :
  parse_script (parser_returning comments_only_root) "" = Ok ([], []).
Proof.
  exact (no_command_no_result (parser_returning comments_only_root) ""
                              comments_only_root eq_refl eq_refl eq_refl).
Defined.

Lemma loop_raise_origin (nodes : list Node) :
  forall st e st',
    parse_script_loop nodes st = (Some e, st') ->
    exists pre c post,
      nodes = (pre ++ c :: post)%list
      /\ all_commands_build pre
      /\ is_command_node c = true
      /\ parse_command c = Raise e
      /\ ordinal st' = ordinal st + count_command_nodes pre.
Proof.
  unfold count_command_nodes.
  induction nodes as [|child rest IH]; intros st e st' H; [discriminate H|].
  destruct (is_command_node child) eqn:Hcmd.
  - destruct (parse_command child) as [c0|e0] eqn:P.
    + rewrite (loop_appends child rest st c0 Hcmd P) in H.
      destruct (IH _ _ _ H) as (pre & c & post & -> & Hall & Hc & Pc & Ho).
      exists (child :: pre), c, post. split; [reflexivity|].
      split; [|split; [exact Hc|split; [exact Pc|]]].
      * intros n [<-|Hn] Hn'; [now exists c0 | now apply Hall].
      * cbn [filter]. rewrite Hcmd. cbn [ordinal List.length] in Ho |- *. lia.
    + rewrite (loop_raises child rest st e0 Hcmd P) in H.
      inversion H; subst.
      exists [], child, rest. cbn. repeat split; try assumption; try lia.
      intros n [].
  - destruct (loop_skips child rest st Hcmd) as [out Hskip].
    rewrite Hskip in H.
    destruct (IH _ _ _ H) as (pre & c & post & -> & Hall & Hc & Pc & Ho).
    exists (child :: pre), c, post. split; [reflexivity|].
    split; [|split; [exact Hc|split; [exact Pc|]]].
    + intros n [<-|Hn] Hn'; [congruence | now apply Hall].
    + cbn [filter]. rewrite Hcmd. exact Ho.
Qed.

(** X18. When the engine has delivered a tree and [parse_script] ends in
    its exception handler, the exception comes from a top-level command
    node that [parse_command] refused, every command node before it was
    built, and the ordinal of the synthetic diagnostic is the rank of that
    node among the top-level command nodes: comments and other nodes never
    make the loop fail. *)
Theorem synthetic_diagnostic_origin (self : CEDARScriptASTParser)
        (code_text : string) (root : Node) (e : Exception) (st : loop_state) :
  parser_parse self (Bytes code_text) = Ok root ->
  parse_script_try self code_text = (Raise e, st) ->
  exists pre c post,
    children root = (pre ++ c :: post)%list
    /\ all_commands_build pre
    /\ is_command_node c = true
    /\ parse_command c = Raise e
    /\ ordinal st = count_command_nodes pre + 1
    /\ ordinal st <= count_command_nodes (children root).
Proof.
  intros P H. unfold parse_script_try in H. rewrite P in H.
  destruct (_collect_parse_errors None root code_text _); [|discriminate H].
  destruct (parse_script_loop (children root) _) as [[e'|] st'] eqn:L;
    inversion H; subst.
  destruct (loop_raise_origin _ _ _ _ L)
    as (pre & c & post & Hsplit & Hall & Hc & Pc & Ho).
  exists pre, c, post. cbn [ordinal] in Ho.
  repeat (split; [assumption|]). split; [lia|].
  rewrite Hsplit. unfold count_command_nodes in *.
  rewrite filter_app, length_app. cbn [filter]. rewrite Hc.
  cbn [List.length]. lia.
Qed.

Lemma synthetic_diagnostic_origin_witness :
  exists pre c post,
    children failing_root = (pre ++ c :: post)%list
    /\ all_commands_build pre
    /\ is_command_node c = true
    /\ parse_command c
       = Raise (ValueError "Unexpected command type: select_command")
    /\ 2 = count_command_nodes pre + 1
    /\ 2 <= count_command_nodes (children failing_root).
Proof.
  exact (synthetic_diagnostic_origin
           (parser_returning failing_root) "" failing_root
           (ValueError "Unexpected command type: select_command")
           (mkLoopState [CreateCommand "create" "a.py" "x"] 2
                        ["(COMMENT) a comment"])
           eq_refl eq_refl).
Defined.

(* ------------------------------------------------------------------ *)
(** * Further properties: diagnostics *)

Lemma flat_map_length_le {A B C : Type} (f : A -> list B) (g : A -> list C)
      (l : list A) :
  Forall (fun a => List.length (f a) <= List.length (g a)) l ->
  List.length (flat_map f l) <= List.length (flat_map g l).
Proof.
  induction 1 as [|a l Ha _ IH]; cbn; [lia|].
  rewrite !length_app. lia.
Qed.

Lemma collected_from_error_node (code_text : string) (command_ordinal0 : nat)
      (n : Node) :
  forall parent d,
    In d (_collect_parse_errors parent n code_text command_ordinal0) ->
    exists p m,
      In (p, m) (error_nodes parent n)
      /\ d = error_of_node p m code_text command_ordinal0.
Proof.
  induction n as [n IH] using Node_ind; intros parent d Hd.
  destruct n as [t nm he sp sb eb tx cs].
  cbn [_collect_parse_errors has_error Node_type children] in Hd.
  cbn [error_nodes children]. unfold is_error_node. cbn [Node_type].
  destruct he; [|contradiction].
  apply in_app_or in Hd as [Hd|Hd].
  - destruct (String.eqb t "ERROR"); cbn in Hd; [|contradiction].
    destruct Hd as [<-|[]].
    eexists _, _. split; [apply in_or_app; left; now left | reflexivity].
  - apply in_flat_map in Hd as (c & Hc & Hd).
    cbn [children] in IH. rewrite Forall_forall in IH.
    destruct (IH c Hc _ _ Hd) as (p & m & Hin & ->).
    exists p, m. split; [|reflexivity].
    apply in_or_app; right. apply in_flat_map. now exists c.
Qed.

Lemma collected_at_most_error_nodes (code_text : string)
      (command_ordinal0 : nat) (n : Node) :
  forall parent,
    List.length (_collect_parse_errors parent n code_text command_ordinal0)
    <= List.length (error_nodes parent n).
Proof.
  induction n as [n IH] using Node_ind; intros parent.
  destruct n as [t nm he sp sb eb tx cs].
  cbn [_collect_parse_errors has_error Node_type children error_nodes].
  unfold is_error_node. cbn [Node_type].
  destruct he; [|cbn; lia].
  rewrite !length_app.
  assert (List.length
            (flat_map (fun child =>
                         _collect_parse_errors
                           (Some (mkNode t nm true sp sb eb tx cs)) child
                           code_text command_ordinal0) cs)
          <= List.length
               (flat_map (error_nodes (Some (mkNode t nm true sp sb eb tx cs)))
                         cs)).
  { apply flat_map_length_le. cbn [children] in IH.
    eapply Forall_impl; [|exact IH]. cbn. intros c Hc. apply Hc. }
  destruct (String.eqb t "ERROR"); cbn [List.length app]; lia.
Qed.

(** X19. Whatever the flags of the tree, the collector reports error nodes
    only: every diagnostic is the one built for an error node of the tree
    with its parent, there are never more of them than error nodes, and a
    node whose [has_error] flag is not set yields none, error nodes below it
    included. *)
Theorem collector_reports_error_nodes_only
        (code_text : string) (command_ordinal0 : nat)
        (parent : option Node) (n : Node) :
  (forall d,
      In d (_collect_parse_errors parent n code_text command_ordinal0) ->
      exists p m,
        In (p, m) (error_nodes parent n)
        /\ is_error_node m = true
        /\ d = error_of_node p m code_text command_ordinal0)
  /\ List.length (_collect_parse_errors parent n code_text command_ordinal0)
     <= List.length (error_nodes parent n)
  /\ (has_error n = false ->
      _collect_parse_errors parent n code_text command_ordinal0 = []).
Proof.
  split; [|split].
  - intros d Hd.
    destruct (collected_from_error_node code_text command_ordinal0 n
                                        parent d Hd)
      as (p & m & Hin & ->).
    exists p, m. split; [exact Hin|]. split; [|reflexivity].
    clear Hd. revert parent Hin.
    induction n as [n IH] using Node_ind; intros parent Hin.
    destruct n as [t nm he sp sb eb tx cs]. cbn [error_nodes children] in Hin.
    apply in_app_or in Hin as [Hin|Hin].
    + match type of Hin with
      | context [is_error_node ?x] => destruct (is_error_node x) eqn:E
      end; [|destruct Hin].
      destruct Hin as [Hin|[]]. inversion Hin; subst. exact E.
    + apply in_flat_map in Hin as (c & Hc & Hin).
      cbn [children] in IH. rewrite Forall_forall in IH.
      exact (IH c Hc _ Hin).
  - apply collected_at_most_error_nodes.
  - intros H. destruct n; cbn in *. now rewrite H.
Qed.

Lemma collector_reports_error_nodes_only_witness :
  _collect_parse_errors
    None
    (mkNode "source_file" true false (0, 0) 0 47 (Bytes erroneous_script)
            [create_node; error_node])
    erroneous_script 1
  = [].
Proof.
  exact (proj2 (proj2 (collector_reports_error_nodes_only
                         erroneous_script 1 None
                         (mkNode "source_file" true false (0, 0) 0 47
                                 (Bytes erroneous_script)
                                 [create_node; error_node])))
               eq_refl).
Defined.

Lemma _generate_suggestion_nonempty (parent : option Node)
      (code_text : string) :
  _generate_suggestion parent code_text <> "".
Proof.
  unfold _generate_suggestion. destruct parent as [p|]; [|discriminate].
  repeat match goal with
         | |- context [if ?b then _ else _] => destruct b
         end; discriminate.
Qed.

Lemma collected_suggestion_nonempty (code_text : string)
      (command_ordinal0 : nat) (n : Node) (parent : option Node)
      (d : ParseError) :
  In d (_collect_parse_errors parent n code_text command_ordinal0) ->
  suggestion d <> "".
Proof.
  intros Hd.
  destruct (collected_from_error_node code_text command_ordinal0 n parent d Hd)
    as (p & m & _ & ->).
  apply _generate_suggestion_nonempty.
Qed.

Lemma returned_diagnostics_cases (self : CEDARScriptASTParser)
      (code_text : string) (cmds : list Command)
      (diagnostics : list ParseError) :
  parse_script self code_text = Ok (cmds, diagnostics) ->
  Forall (fun d => is_synthetic d \/ is_located d) diagnostics.
Proof.
  unfold parse_script.
  destruct (parse_script_try self code_text) as [[r|e] st] eqn:T.
  - intros H; inversion H; subst; clear H.
    unfold parse_script_try in T.
    destruct (parser_parse self (Bytes code_text)) as [root|];
      [|discriminate T].
    destruct (_collect_parse_errors None root code_text _) as [|d0 ds] eqn:C.
    + destruct (parse_script_loop _ _) as [[e|] st']; inversion T.
      constructor.
    + inversion T; subst. apply Forall_forall. intros d Hd. right.
      rewrite <- C in Hd.
      destruct (collected_error_fields code_text 1 root None d Hd)
        as (Ho & Hl & Hc).
      repeat split; try assumption.
      exact (collected_suggestion_nonempty code_text 1 root None d Hd).
  - unfold parse_script_except. intros H; inversion H; subst.
    constructor; [|constructor]. left. repeat split.
Qed.

(** X20. Every diagnostic [parse_script] returns is of one of two kinds:
    the synthetic one, with line 0, column 0 and the generic suggestion, or
    a located one, with line and column of at least 1, the ordinal 1 and a
    suggestion that is not empty.  Its rendering hence names the line and
    the column together or not at all, and always holds the suggestion
    before the fixed instruction. *)
Theorem returned_diagnostic_rendering (self : CEDARScriptASTParser)
        (code_text : string) (cmds : list Command)
        (diagnostics : list ParseError) :
  parse_script self code_text = Ok (cmds, diagnostics) ->
  Forall
    (fun d =>
       (is_synthetic d \/ is_located d)
       /\ ParseError_str d
          = "<error-details><error-location>COMMAND #"
            ++ Py.str_of_nat (command_ordinal d)
            ++ rendered_location d
            ++ "</error-location>"
            ++ "<type>PARSING (no commands were applied at all)</type><description>"
            ++ message d ++ "</description>"
            ++ "<suggestion>" ++ suggestion d ++ " "
            ++ "(NEVER apologize; just take a deep breath, re-read grammar rules (enclosed by <grammar.js> tags) "
            ++ "and fix you CEDARScript syntax)</suggestion></error-details>")
    diagnostics.
Proof.
  intros H.
  eapply Forall_impl; [|exact (returned_diagnostics_cases _ _ _ _ H)].
  intros d Hd. split; [exact Hd|].
  unfold ParseError_str, rendered_location.
  destruct Hd as [(Hl & Hc & Hs)|(Hl & Hc & _ & Hs)].
  - rewrite Hl, Hc, Hs. reflexivity.
  - destruct (line d) as [|l]; [lia|]. destruct (column d) as [|c]; [lia|].
    apply String.eqb_neq in Hs. rewrite Hs.
    cbn [Nat.eqb]. rewrite !append_assoc. reflexivity.
Qed.

Lemma returned_diagnostic_rendering_witness :
  ParseError_str
    {| command_ordinal := 1;
       message := "Syntax error near 'UPDATE ???' at line 1, column 38.";
       line := 1;
       column := 38;
       suggestion :=
         "Please check the syntax near the error (parent node: source_file)"
    |}
  = "<error-details><error-location>COMMAND #1; LINE #1; COLUMN #38</error-location><type>PARSING (no commands were applied at all)</type><description>Syntax error near 'UPDATE ???' at line 1, column 38.</description><suggestion>Please check the syntax near the error (parent node: source_file) (NEVER apologize; just take a deep breath, re-read grammar rules (enclosed by <grammar.js> tags) and fix you CEDARScript syntax)</suggestion></error-details>".
Proof.
  pose proof (returned_diagnostic_rendering
                (parser_returning erroneous_root) erroneous_script _ _
                eq_refl) as H.
  inversion H as [|d ds [_ Hd] _]; subst. exact Hd.
Defined.

(* ------------------------------------------------------------------ *)
(** * Further properties: enumerations, markers and dead branches *)

Lemma MarkerType_of_value (v : string) (t : MarkerType) :
  MarkerType_of v = Ok t -> MarkerType_value t = v.
Proof.
  unfold MarkerType_of.
  repeat match goal with
         | |- context [String.eqb v ?l] =>
             destruct (String.eqb_spec v l);
             [intros H; inversion H; subst; reflexivity|]
         end.
  discriminate.
Qed.

Lemma RelativePositionType_of_value (v : string) (q : RelativePositionType) :
  RelativePositionType_of v = Ok q -> RelativePositionType_value q = v.
Proof.
  unfold RelativePositionType_of.
  repeat match goal with
         | |- context [String.eqb v ?l] =>
             destruct (String.eqb_spec v l);
             [intros H; inversion H; subst; reflexivity|]
         end.
  discriminate.
Qed.

Lemma BodyOrWhole_of_value (v : string) (b : BodyOrWhole) :
  BodyOrWhole_of v = Ok b -> BodyOrWhole_value b = v.
Proof.
  unfold BodyOrWhole_of.
  repeat match goal with
         | |- context [String.eqb v ?l] =>
             destruct (String.eqb_spec v l);
             [intros H; inversion H; subst; reflexivity|]
         end.
  discriminate.
Qed.

(** X21. For the three enumerations, looking a member up by value is the
    inverse of taking its value: the value of a member is found again as
    that member, and a text that is found is the value of the member
    found, so every other text is refused. *)
Theorem enum_lookup_round_trip :
  (forall t, MarkerType_of (MarkerType_value t) = Ok t)
  /\ (forall v t, MarkerType_of v = Ok t -> MarkerType_value t = v)
  /\ (forall q, RelativePositionType_of (RelativePositionType_value q) = Ok q)
  /\ (forall v q,
         RelativePositionType_of v = Ok q -> RelativePositionType_value q = v)
  /\ (forall b, BodyOrWhole_of (BodyOrWhole_value b) = Ok b)
  /\ (forall v b, BodyOrWhole_of v = Ok b -> BodyOrWhole_value b = v).
Proof.
  split; [intros []; reflexivity|].
  split; [exact MarkerType_of_value|].
  split; [intros []; reflexivity|].
  split; [exact RelativePositionType_of_value|].
  split; [intros []; reflexivity | exact BodyOrWhole_of_value].
Qed.

Lemma enum_lookup_round_trip_witness :
  MarkerType_value FUNCTION = "function"
  /\ RelativePositionType_value INSIDE = "inside"
  /\ BodyOrWhole_value WHOLE = "whole".
Proof.
  split; [|split].
  - exact (proj1 (proj2 enum_lookup_round_trip) "function" FUNCTION eq_refl).
  - exact (proj1 (proj2 (proj2 (proj2 enum_lookup_round_trip)))
                 "inside" INSIDE eq_refl).
  - exact (proj2 (proj2 (proj2 (proj2 (proj2 enum_lookup_round_trip))))
                 "whole" WHOLE eq_refl).
Defined.

(** X22. In a marker that [parse_marker] builds, the kind is the type,
    without case, of the first child of the marker node proper (the first
    named child of a [marker] wrapper, the node itself otherwise), the value
    is the decoded [string] among the named children, and the offset is
    that of the [offset_clause] among them, [None] when there is none. *)
Theorem parse_marker_fields (node : Node) (m : Marker) :
  parse_marker node = Ok m ->
  exists proper first,
    (if String.eqb (Py.casefold (Node_type node)) "marker"
     then list_index (named_children node) 0
     else Ok node) = Ok proper
    /\ child proper 0 = Some first
    /\ MarkerType_value (Marker_type m) = Py.casefold (Node_type first)
    /\ parse_string (find_first_by_type (named_children proper)
                                        (OneType "string"))
       = Ok (Marker_value m)
    /\ parse_offset_clause (find_first_by_type (named_children proper)
                                               (OneType "offset_clause"))
       = Ok (Marker_offset m)
    /\ (find_first_by_type (named_children proper) (OneType "offset_clause")
        = None ->
        Marker_offset m = None).
Proof.
  unfold parse_marker.
  destruct (if String.eqb _ _ then _ else _) as [proper|] eqn:W; cbn [bind];
    [|discriminate].
  destruct (list_index (children proper) 0) as [first|] eqn:F; cbn [bind];
    [|discriminate].
  destruct (parse_string _) as [v|] eqn:V; cbn [bind]; [|discriminate].
  destruct (parse_offset_clause _) as [o|] eqn:O; cbn [bind]; [|discriminate].
  destruct (MarkerType_of _) as [t|] eqn:T; cbn [bind]; [|discriminate].
  intros H; inversion H; subst; clear H.
  exists proper, first. cbn [Marker_type Marker_value Marker_offset].
  split; [reflexivity|]. split.
  { unfold list_index in F. unfold child.
    destruct (nth_error (children proper) 0); [|discriminate F].
    now inversion F. }
  split; [exact (MarkerType_of_value _ _ T)|].
  split; [exact V|]. split; [exact O|].
  intros N. rewrite N in O. cbn in O. now inversion O.
Qed.

Lemma parse_marker_fields_witness :
  exists proper first,
    (if String.eqb (Py.casefold (Node_type (line_marker_node "'10'"))) "marker"
     then list_index (named_children (line_marker_node "'10'")) 0
     else Ok (line_marker_node "'10'")) = Ok proper
    /\ child proper 0 = Some first
    /\ MarkerType_value LINE = Py.casefold (Node_type first)
    /\ parse_string (find_first_by_type (named_children proper)
                                        (OneType "string"))
       = Ok "10"
    /\ parse_offset_clause (find_first_by_type (named_children proper)
                                               (OneType "offset_clause"))
       = Ok None
    /\ (find_first_by_type (named_children proper) (OneType "offset_clause")
        = None ->
        @None Z = None).
Proof.
  exact (parse_marker_fields (line_marker_node "'10'")
                             (mkMarker LINE "10" None) eq_refl).
Defined.

Lemma find_first_by_type_list (nodes : list Node) (l : list string)
      (n : Node) :
  find_first_by_type nodes (TypeList l) = Some n ->
  existsb (String.eqb (Node_type n)) l = true.
Proof.
  cbn [find_first_by_type]. intros H. now apply find_some in H.
Qed.

(** X23. The default arms of [parse_update_target] and of
    [parse_update_action] are never taken: the node found by type is a
    [singlefile_clause] or an [identifier_from_file], respectively one of
    the seven action clauses, so the target is parsed by one of the two
    target parsers and the action by one of the four clause parsers. *)
Theorem default_arms_unreachable (node : Node) :
  (forall target_node,
      find_first_by_type
        (named_children node)
        (TypeList ["singlefile_clause"; "identifier_from_file"])
      = Some target_node ->
      parse_update_target node
      = if String.eqb (Node_type target_node) "singlefile_clause"
        then c <- parse_singlefile_clause (Some target_node) ;;
             Ok (OfSingleFile c)
        else i <- parse_identifier_from_file target_node ;;
             Ok (OfIdentifier i))
  /\ (forall action_node,
         find_first_by_type
           (named_children node)
           (TypeList
              ["update_delete_region_clause"; "update_delete_mos_clause";
               "update_move_region_clause"; "update_move_mos_clause";
               "insert_clause"; "replace_mos_clause"; "replace_region_clause"])
         = Some action_node ->
         let t := Node_type action_node in
         parse_update_action node
         = if String.eqb t "update_delete_mos_clause"
              || String.eqb t "update_delete_region_clause"
           then c <- parse_delete_clause action_node ;; Ok (Delete c)
           else if String.eqb t "update_move_mos_clause"
                   || String.eqb t "update_move_region_clause"
           then c <- parse_move_clause action_node ;; Ok (Move c)
           else if String.eqb t "insert_clause"
           then c <- parse_insert_clause (Some action_node) ;; Ok (Insert c)
           else c <- parse_replace_clause action_node ;; Ok (Replace c)).
Proof.
  split.
  - intros target_node F. unfold parse_update_target. rewrite F.
    apply find_first_by_type_list in F. cbn [existsb] in F.
    destruct (String.eqb_spec (Node_type target_node) "singlefile_clause")
      as [E|_].
    + rewrite E. reflexivity.
    + destruct (String.eqb_spec (Node_type target_node)
                                "identifier_from_file") as [E|_];
        [|discriminate F].
      rewrite E. reflexivity.
  - intros action_node F t. unfold parse_update_action. rewrite F.
    apply find_first_by_type_list in F. cbn [existsb] in F. fold t in F |- *.
    destruct (String.eqb t "update_delete_mos_clause");
      destruct (String.eqb t "update_delete_region_clause");
      destruct (String.eqb t "update_move_mos_clause");
      destruct (String.eqb t "update_move_region_clause");
      destruct (String.eqb t "insert_clause");
      destruct (String.eqb t "replace_mos_clause");
      destruct (String.eqb t "replace_region_clause");
      cbn [orb] in F |- *; try reflexivity; discriminate F.
Qed.

Lemma default_arms_unreachable_witness :
  parse_update_target update_with_content_node
  = Ok (OfSingleFile (mkSingleFileClause "a.py")).
Proof.
  exact (proj1 (default_arms_unreachable update_with_content_node)
               (file_node "'a.py'") eq_refl).
Defined.

(* ------------------------------------------------------------------ *)
(** * Well-formed command nodes are built *)


































(** What the script of a comment and of the five well-formed commands
    yields. *)
Example four_commands_result :
  parse_script (parser_returning four_commands_root) ""
  = Ok ([CreateCommand "create" "a.py" "x";
         MvFileCommand "mv_file" "a.py" "b.py";
         UpdateCommand "update" (OfSingleFile (mkSingleFileClause "a.py"))
                       (Move expected_move_clause) None;
         UpdateCommand "update" (OfSingleFile (mkSingleFileClause "a.py"))
           (Replace
              (mkReplaceClause
                 (RegionSegment
                    (RegionMarker (mkMarker LINE "1" None))
                    (RegionRelativeMarker
                       (mkRelativeMarker BEFORE (mkMarker LINE "9" None))))))
           (Some "x");
         RmFileCommand "rm_file" "a.py"],
        []).
Proof. reflexivity. Qed.
